(** * BreakPointManager

    A shallow embedding of [breakPointManager.js]: the module keeps an array
    of breakpoints (strings) and rewrites the class attribute of the [html]
    element from the client width.  The first part models the fragment of
    ECMAScript the file relies on (numbers, the coercions [+x] and [''+x],
    the relational operators and three string methods); the second part is
    the module itself, written with explicit state passing; the theorems
    follow. *)

From Stdlib Require Import ZArith List Bool Ascii String Lia.
From Stdlib Require Import Decimal DecimalString DecimalPos DecimalN.
Import ListNotations.
Set Warnings "-register-all".
Open Scope string_scope.
Open Scope Z_scope.

(** ** ECMAScript numbers

    A Number is an IEEE 754 double.  A finite value is kept as sign,
    integral significand and binary exponent: [Fin neg m e] stands for
    [(-1)^neg * m * 2^e], with [0 <= m < 2^53] and [-1074 <= e <= 971] for
    the values the conversions below produce. *)

Module Js.

Inductive JsNum : Type :=
| NaN
| Inf (neg : bool)
| Fin (neg : bool) (m : Z) (e : Z).

Definition emin : Z := -1074.
Definition emax : Z := 971.
Definition prec : Z := 53.

Definition zero : JsNum := Fin false 0 emin.

(** The Number value for the positive rational [p / q]: round to nearest,
    ties to even, with gradual underflow and overflow to infinity. *)
Definition round_ratio (neg : bool) (p q : Z) : JsNum :=
  if p <=? 0 then Fin neg 0 emin else
  let d := Z.log2 p - Z.log2 q in
  let e0 := if (if 0 <=? d then q * 2 ^ d <=? p else q <=? p * 2 ^ (- d))
            then d else d - 1 in
  let e := Z.max (e0 - (prec - 1)) emin in
  let num := if 0 <=? e then p else p * 2 ^ (- e) in
  let den := if 0 <=? e then q * 2 ^ e else q in
  let m := num / den in
  let r := num mod den in
  let m' := if (den <? 2 * r) || ((den =? 2 * r) && Z.odd m) then m + 1 else m in
  let '(m2, e2) := if m' =? 2 ^ prec then (2 ^ (prec - 1), e + 1) else (m', e) in
  if emax <? e2 then Inf neg else Fin neg m2 e2.

(** An integer read as a Number ([clientWidth] is an integer). *)
Definition num_of_Z (z : Z) : JsNum := round_ratio (z <? 0) (Z.abs z) 1.

(** The Number value for the decimal [s * 10^x]. *)
Definition round_decimal (neg : bool) (s x : Z) : JsNum :=
  if 0 <=? x then round_ratio neg (s * 10 ^ x) 1 else round_ratio neg s (10 ^ (- x)).

Definition isNaN (x : JsNum) : bool :=
  match x with NaN => true | _ => false end.

Definition isFinite (x : JsNum) : bool :=
  match x with Fin _ _ _ => true | _ => false end.

(** Numeric comparison; [None] when an operand is NaN.  The two zeros are
    equal. *)
Definition signed (neg : bool) (m : Z) : Z := if neg then - m else m.

Definition num_compare (x y : JsNum) : option comparison :=
  match x, y with
  | NaN, _ | _, NaN => None
  | Inf a, Inf b => Some (if Bool.eqb a b then Eq else if a then Lt else Gt)
  | Inf a, Fin _ _ _ => Some (if a then Lt else Gt)
  | Fin _ _ _, Inf b => Some (if b then Gt else Lt)
  | Fin a m1 e1, Fin b m2 e2 =>
      let e := Z.min e1 e2 in
      Some (signed a m1 * 2 ^ (e1 - e) ?= signed b m2 * 2 ^ (e2 - e))
  end.

Definition num_ltb (x y : JsNum) : bool :=
  match num_compare x y with Some Lt => true | _ => false end.

(** *** Strings

    A string is a sequence of code units; [string] covers the code units
    below 256.  In that range the white space of StringToNumber and the
    class [\s] of regular expressions are the same seven characters: TAB,
    LF, VT, FF, CR, SP and NBSP. *)
Definition is_ws (c : ascii) : bool :=
  let n := nat_of_ascii c in
  ((9 <=? n) && (n <=? 13))%nat || (n =? 32)%nat || (n =? 160)%nat.

(** *** StringToNumber: the coercion [+s] of a string

    Leading and trailing white space is dropped; the empty string is [+0];
    what remains is a signed decimal literal, [Infinity], or an unsigned
    hexadecimal, octal or binary integer literal; anything else is NaN. *)
Fixpoint trim_left (s : string) : string :=
  match s with
  | String c s' => if is_ws c then trim_left s' else s
  | EmptyString => EmptyString
  end.

Fixpoint trim_right (s : string) : string :=
  match s with
  | EmptyString => EmptyString
  | String c s' =>
      let r := trim_right s' in
      if is_ws c && (r =? "")%string then EmptyString else String c r
  end.

(** The value of a digit in a base up to 16, [None] for any other
    character. *)
Definition digit_val (base : Z) (c : ascii) : option Z :=
  let n := Z.of_nat (nat_of_ascii c) in
  let v := if (48 <=? n) && (n <=? 57) then n - 48
           else if (97 <=? n) && (n <=? 102) then n - 87
           else if (65 <=? n) && (n <=? 70) then n - 55
           else base in
  if v <? base then Some v else None.

Fixpoint digits_val (base : Z) (acc : Z) (s : string) : option Z :=
  match s with
  | EmptyString => Some acc
  | String c s' =>
      match digit_val base c with
      | Some v => digits_val base (acc * base + v) s'
      | None => None
      end
  end.

Definition integer_literal (base : Z) (s : string) : option Z :=
  match s with
  | EmptyString => None
  | _ => digits_val base 0 s
  end.

(** The longest prefix of decimal digits, and the rest. *)
Fixpoint span_digits (s : string) : string * string :=
  match s with
  | String c s' =>
      match digit_val 10 c with
      | Some _ => let '(d, r) := span_digits s' in (String c d, r)
      | None => (EmptyString, s)
      end
  | EmptyString => (EmptyString, EmptyString)
  end.

Definition signed_integer (s : string) : option Z :=
  match s with
  | String "+" r => integer_literal 10 r
  | String "-" r => option_map Z.opp (integer_literal 10 r)
  | _ => integer_literal 10 s
  end.

Definition exponent_part (s : string) : option Z :=
  match s with
  | EmptyString => Some 0
  | String "e" r | String "E" r => signed_integer r
  | _ => None
  end.

(** StrUnsignedDecimalLiteral: [Infinity], or digits with an optional
    fraction and an optional exponent, at least one digit before the
    exponent. *)
Definition unsigned_decimal (neg : bool) (s : string) : JsNum :=
  if (s =? "Infinity")%string then Inf neg else
  let '(ip, r1) := span_digits s in
  let '(fp, r2) := match r1 with
                   | String "." r => span_digits r
                   | _ => (EmptyString, r1)
                   end in
  match ip ++ fp with
  | EmptyString => NaN
  | ds =>
      match digits_val 10 0 ds, exponent_part r2 with
      | Some mv, Some ex => round_decimal neg mv (ex - Z.of_nat (String.length fp))
      | _, _ => NaN
      end
  end.

Definition of_integer_literal (base : Z) (s : string) : JsNum :=
  match integer_literal base s with
  | Some v => round_ratio false v 1
  | None => NaN
  end.

Definition StringToNumber (str : string) : JsNum :=
  match trim_right (trim_left str) with
  | EmptyString => Fin false 0 emin
  | String "0" (String "x" r) | String "0" (String "X" r) => of_integer_literal 16 r
  | String "0" (String "o" r) | String "0" (String "O" r) => of_integer_literal 8 r
  | String "0" (String "b" r) | String "0" (String "B" r) => of_integer_literal 2 r
  | String "+" r => unsigned_decimal false r
  | String "-" r => unsigned_decimal true r
  | s => unsigned_decimal false s
  end.


(** *** Number::toString: the coercion [''+x] of a number

    The digits are the shortest decimal [s * 10^(n-k)], [s] of [k] digits,
    whose Number value is the number itself; of two such [s] the closer
    one.  Seventeen digits always suffice. *)
Definition string_of_nonneg (z : Z) : string :=
  NilZero.string_of_uint (N.to_uint (Z.to_N z)).

Definition nb_digits (z : Z) : Z := Z.of_nat (String.length (string_of_nonneg z)).

(** [(p/q) / 10^x] as a numerator and a denominator. *)
Definition scaled (p q x : Z) : Z * Z :=
  if 0 <=? x then (p, q * 10 ^ x) else (p * 10 ^ (- x), q).

(** The [n] with [10^(n-1) <= p/q < 10^n]. *)
Definition decimal_exponent (p q : Z) : Z :=
  let d := nb_digits p - nb_digits q in
  let '(num, den) := scaled p q d in
  if den <=? num then d + 1 else d.

Record Digits : Type := mkDigits { dg_n : Z; dg_k : Z; dg_s : Z }.

Definition candidate (m e p q n k : Z) : option Digits :=
  let '(num, den) := scaled p q (n - k) in
  let lo := num / den in
  let r := num mod den in
  let hi := lo + 1 in
  let ok s := match round_decimal false s (n - k) with
              | Fin _ m' e' => (m' =? m) && (e' =? e)
              | _ => false
              end in
  let pick s := if s =? 10 ^ k then mkDigits (n + 1) 1 1 else mkDigits n k s in
  match ok lo, ok hi with
  | true, true =>
      if (2 * r <? den) || ((2 * r =? den) && Z.even lo) then Some (pick lo) else Some (pick hi)
  | true, false => Some (pick lo)
  | false, true => Some (pick hi)
  | false, false => None
  end.

Fixpoint shortest (fuel : nat) (m e p q n k : Z) : Digits :=
  match fuel with
  | O => let '(num, den) := scaled p q (n - k) in mkDigits n k (num / den)
  | S fuel' =>
      match candidate m e p q n k with
      | Some d => d
      | None => shortest fuel' m e p q n (k + 1)
      end
  end.

Definition digits_of (m e : Z) : Digits :=
  let p := if 0 <=? e then m * 2 ^ e else m in
  let q := if 0 <=? e then 1 else 2 ^ (- e) in
  shortest 17 m e p q (decimal_exponent p q) 1.

Fixpoint zeros (n : nat) : string :=
  match n with O => EmptyString | S n' => String "0" (zeros n') end.

Definition exponent_suffix (n : Z) : string :=
  "e" ++ (if 0 <=? n - 1 then "+" else "-") ++ string_of_nonneg (Z.abs (n - 1)).

Definition format_digits (d : Digits) : string :=
  let n := dg_n d in
  let k := dg_k d in
  let ds := string_of_nonneg (dg_s d) in
  if (k <=? n) && (n <=? 21) then ds ++ zeros (Z.to_nat (n - k))
  else if (0 <? n) && (n <=? 21) then
    substring 0 (Z.to_nat n) ds ++ "." ++ substring (Z.to_nat n) (Z.to_nat (k - n)) ds
  else if (-6 <? n) && (n <=? 0) then "0." ++ zeros (Z.to_nat (- n)) ++ ds
  else if k =? 1 then ds ++ exponent_suffix n
  else substring 0 1 ds ++ "." ++ substring 1 (Z.to_nat (k - 1)) ds ++ exponent_suffix n.

Definition NumberToString (x : JsNum) : string :=
  match x with
  | NaN => "NaN"
  | Inf false => "Infinity"
  | Inf true => "-Infinity"
  | Fin neg m e =>
      if m <=? 0 then "0"
      else (if neg then "-" else "") ++ format_digits (digits_of m e)
  end.


(** ** ECMAScript values

    The values the module can be handed: the primitives, arrays, and a plain
    object (one with the conversions of [Object.prototype]).  On these
    values none of the operations the module uses throws, so the functions
    below return a result for every argument. *)
Inductive JsValue : Type :=
| VUndefined
| VNull
| VBool (b : bool)
| VNumber (n : JsNum)
| VString (s : string)
| VArray (elems : list JsValue)
| VObject.

(** [Array.prototype.join] with the default separator, on the strings of the
    elements. *)
Fixpoint join (l : list string) : string :=
  match l with
  | [] => ""
  | [x] => x
  | x :: r => x ++ "," ++ join r
  end.

(** ToString, the coercion [''+v].  An array is joined; [undefined] and
    [null] elements are joined as empty strings. *)
Fixpoint ToString (v : JsValue) : string :=
  match v with
  | VUndefined => "undefined"
  | VNull => "null"
  | VBool true => "true"
  | VBool false => "false"
  | VNumber n => NumberToString n
  | VString s => s
  | VArray l =>
      join (map (fun x => match x with
                          | VUndefined | VNull => ""
                          | _ => ToString x
                          end) l)
  | VObject => "[object Object]"
  end.

(** ToNumber, the coercion [+v].  An object is first made a string. *)
Definition ToNumber (v : JsValue) : JsNum :=
  match v with
  | VUndefined => NaN
  | VNull => zero
  | VBool true => num_of_Z 1
  | VBool false => zero
  | VNumber n => n
  | VString s => StringToNumber s
  | VArray _ => StringToNumber (ToString v)
  | VObject => NaN
  end.

(** The relational operator [x < y]: code-unit order when both operands
    are strings after ToPrimitive, numeric order otherwise, false when a
    number is NaN. *)
Definition ToPrimitive (v : JsValue) : JsValue :=
  match v with
  | VArray _ | VObject => VString (ToString v)
  | _ => v
  end.

Definition lessThan (x y : JsValue) : bool :=
  match ToPrimitive x, ToPrimitive y with
  | VString a, VString b => String.ltb a b
  | px, py => num_ltb (ToNumber px) (ToNumber py)
  end.

(** [x > y] is [y < x]. *)
Definition greaterThan (x y : JsValue) : bool := lessThan y x.

(** [typeof v], [v instanceof Array], and the elements [v[0]], [v[1]], ...
    of an array. *)
Definition typeof (v : JsValue) : string :=
  match v with
  | VUndefined => "undefined"
  | VBool _ => "boolean"
  | VNumber _ => "number"
  | VString _ => "string"
  | VNull | VArray _ | VObject => "object"
  end.

Definition instanceofArray (v : JsValue) : bool :=
  match v with VArray _ => true | _ => false end.

Definition elements (v : JsValue) : list JsValue :=
  match v with VArray l => l | _ => [] end.

(** *** String methods *)

(** [s.indexOf(pat)]: the position of the first occurrence, or -1. *)
Fixpoint indexOf_from (s pat : string) (i : Z) : Z :=
  if prefix pat s then i else
  match s with
  | EmptyString => -1
  | String _ s' => indexOf_from s' pat (i + 1)
  end.

Definition indexOf (s pat : string) : Z := indexOf_from s pat 0.

(** The string without its first [n] characters. *)
Fixpoint skip (n : nat) (s : string) : string :=
  match n, s with
  | S n', String _ s' => skip n' s'
  | _, _ => s
  end.

(** [s.replace(pat, rep)] with a string pattern: only the first occurrence
    is replaced.  ([rep] is taken literally: no [$] in it.) *)
Fixpoint replace (s pat rep : string) : string :=
  if prefix pat s then rep ++ skip (String.length pat) s else
  match s with
  | EmptyString => EmptyString
  | String c s' => String c (replace s' pat rep)
  end.

(** [s.replace(/\s+/g, ' ')]: every maximal run of white space becomes one
    space.  A white-space character followed by another one is dropped; the
    last one of a run is the space. *)
Fixpoint replace_ws_runs (s : string) : string :=
  match s with
  | EmptyString => EmptyString
  | String c s' =>
      if is_ws c then
        match s' with
        | String c' _ => if is_ws c' then replace_ws_runs s'
                         else String " " (replace_ws_runs s')
        | EmptyString => " "
        end
      else String c (replace_ws_runs s')
  end.

(** [a.indexOf(x)] on an array of strings. *)
Fixpoint array_indexOf_from (a : list string) (x : string) (i : Z) : Z :=
  match a with
  | [] => -1
  | y :: a' => if (y =? x)%string then i else array_indexOf_from a' x (i + 1)
  end.

Definition array_indexOf (a : list string) (x : string) : Z :=
  array_indexOf_from a x 0.

End Js.

Import Js.

(** ** The module *)

(** The class-name prefixes. *)
Module PREFIXES.
Definition LESS_THAN : string := "lt".
Definition GREATER_THAN : string := "gt".
Definition EQUAL : string := "e".
End PREFIXES.

(** The state the functions share: the [breakPoints] array of the closure,
    and of the document the client width and the class attribute of the
    [html] element. *)
Record State : Type := mkState {
  breakPoints : list string;
  clientWidth : Z;
  className : string
}.

(** The module as loaded: no breakpoint. *)
Definition initial (width : Z) (classes : string) : State :=
  mkState [] width classes.

Definition hasBreakPoint (bp : JsValue) (st : State) : bool :=
  negb (array_indexOf (breakPoints st) (ToString bp) =? -1).

(** One turn of the first loop of [updateClasses]: the class to add and the
    two classes to remove for one breakpoint. *)
Definition classesFor (windowWidth : JsValue) (bp : string) : string * list string :=
  if greaterThan windowWidth (VString bp) then
    (PREFIXES.GREATER_THAN ++ bp, [PREFIXES.LESS_THAN ++ bp; PREFIXES.EQUAL ++ bp])
  else if lessThan windowWidth (VString bp) then
    (PREFIXES.LESS_THAN ++ bp, [PREFIXES.GREATER_THAN ++ bp; PREFIXES.EQUAL ++ bp])
  else
    (PREFIXES.EQUAL ++ bp, [PREFIXES.LESS_THAN ++ bp; PREFIXES.GREATER_THAN ++ bp]).

(** The first loop: both lists grow by [push]. *)
Fixpoint constructLists (windowWidth : JsValue) (bps : list string)
         (classesToAdd classesToRemove : list string) : list string * list string :=
  match bps with
  | [] => (classesToAdd, classesToRemove)
  | bp :: rest =>
      let '(a, r) := classesFor windowWidth bp in
      constructLists windowWidth rest (classesToAdd ++ [a]) (classesToRemove ++ r)
  end.

(** The second loop. *)
Fixpoint removeClasses (currentClasses : string) (classesToRemove : list string) : string :=
  match classesToRemove with
  | [] => currentClasses
  | c :: rest => removeClasses (replace currentClasses c "") rest
  end.

(** The third loop. *)
Fixpoint addClasses (currentClasses : string) (classesToAdd : list string) : string :=
  match classesToAdd with
  | [] => currentClasses
  | c :: rest =>
      addClasses (if indexOf currentClasses c =? -1
                  then currentClasses ++ " " ++ c
                  else currentClasses) rest
  end.

Definition windowWidth (st : State) : JsValue := VNumber (num_of_Z (clientWidth st)).

Definition classesToAdd (st : State) : list string :=
  fst (constructLists (windowWidth st) (breakPoints st) [] []).

Definition classesToRemove (st : State) : list string :=
  snd (constructLists (windowWidth st) (breakPoints st) [] []).

(** The class string after the second loop, and after the third. *)
Definition afterRemoval (st : State) : string :=
  removeClasses (className st) (classesToRemove st).

Definition afterAddition (st : State) : string :=
  addClasses (afterRemoval st) (classesToAdd st).

Definition updateClasses (st : State) : State :=
  mkState (breakPoints st) (clientWidth st) (replace_ws_runs (afterAddition st)).

Definition addUniqueBreakPoint (bp : JsValue) (st : State) : State :=
  if negb (isNaN (ToNumber bp)) && negb (hasBreakPoint bp st)
  then mkState (breakPoints st ++ [ToString bp]) (clientWidth st) (className st)
  else st.

Definition addBreakPoints (bp : JsValue) (st : State) : State :=
  updateClasses
    (if (typeof bp =? "string")%string || (typeof bp =? "number")%string then
       addUniqueBreakPoint bp st
     else if instanceofArray bp then
       fold_left (fun s x => addUniqueBreakPoint x s) (elements bp) st
     else st).

(** What happens to the page between two calls: the window is resized (the
    listener runs [updateClasses]) or the host page sets the class
    attribute. *)
Definition resize (width : Z) (st : State) : State :=
  updateClasses (mkState (breakPoints st) width (className st)).

Definition setClassName (classes : string) (st : State) : State :=
  mkState (breakPoints st) (clientWidth st) classes.


(** The calls the page can make, and what the page does in between. *)
Inductive Call : Type :=
| CallAddBreakPoints (bp : JsValue)
| CallHasBreakPoint (bp : JsValue)
| CallUpdateClasses
| Resize (width : Z)
| SetClassName (classes : string).

(** The state after a call; [hasBreakPoint] only reads. *)
Definition call (c : Call) (st : State) : State :=
  match c with
  | CallAddBreakPoints bp => addBreakPoints bp st
  | CallHasBreakPoint _ => st
  | CallUpdateClasses => updateClasses st
  | Resize width => resize width st
  | SetClassName classes => setClassName classes st
  end.

Definition run (calls : list Call) (st : State) : State :=
  fold_left (fun s c => call c s) calls st.

(** The values [addBreakPoints] hands to [addUniqueBreakPoint]. *)
Definition valuesOf (bp : JsValue) : list JsValue :=
  if (typeof bp =? "string")%string || (typeof bp =? "number")%string then [bp]
  else elements bp.

(** The values of one call, one after the other. *)
Definition addAll (vs : list JsValue) (st : State) : State :=
  fold_left (fun s x => addUniqueBreakPoint x s) vs st.

(** ** The class attribute as a list of tokens

    The class attribute names the classes separated by white space; white
    space is what [updateClasses] takes for it, the class [\s].  The tokens
    are read off from left to right, [cur] being the token under way. *)
Definition emit (cur : string) : list string :=
  match cur with EmptyString => [] | _ => [cur] end.

Fixpoint tokens_from (cur s : string) : list string :=
  match s with
  | EmptyString => emit cur
  | String c s' =>
      if is_ws c then (emit cur ++ tokens_from "" s')%list
      else tokens_from (cur ++ String c "") s'
  end.

Definition tokens (s : string) : list string := tokens_from "" s.

(** No white space in it; nothing but white space in it. *)
Fixpoint noWs (s : string) : bool :=
  match s with
  | EmptyString => true
  | String c s' => negb (is_ws c) && noWs s'
  end.

Fixpoint whitespaceOnly (s : string) : bool :=
  match s with
  | EmptyString => true
  | String c s' => is_ws c && whitespaceOnly s'
  end.

(** [t] occurs in [s], as a proposition and as the test of the third
    loop. *)
Definition occurs (t s : string) : Prop :=
  exists pre post : string, s = pre ++ t ++ post.

Definition occursb (t s : string) : bool := negb (indexOf s t =? -1).

(** The three class names of a breakpoint, and those of all breakpoints. *)
Definition classNames (bp : string) : list string :=
  [PREFIXES.LESS_THAN ++ bp; PREFIXES.GREATER_THAN ++ bp; PREFIXES.EQUAL ++ bp].

Definition allClassNames (bps : list string) : list string :=
  flat_map classNames bps.

Definition isClassName (bps : list string) (t : string) : bool :=
  existsb (String.eqb t) (allClassNames bps).

(** The first [x] taken out of a list. *)
Fixpoint remove_first (x : string) (l : list string) : list string :=
  match l with
  | [] => []
  | y :: l' => if (y =? x)%string then l' else y :: remove_first x l'
  end.

(** A class attribute in which the class names of the breakpoints stand on
    their own: no breakpoint has white space in it, and a token of the
    attribute in which a class name occurs is that class name. *)
Definition standAlone (bps : list string) (classes : string) : bool :=
  forallb noWs bps
  && forallb (fun tok =>
                forallb (fun t => implb (occursb t tok) (tok =? t)%string)
                        (allClassNames bps))
             (tokens classes).

(** A tidy class attribute: moreover no class name occurs in another one,
    and none is twice among the tokens. *)
Definition tidy (bps : list string) (classes : string) : bool :=
  standAlone bps classes
  && forallb (fun t' =>
                forallb (fun t => implb (occursb t t') (t' =? t)%string)
                        (allClassNames bps))
             (allClassNames bps)
  && forallb (fun t => (count_occ string_dec (tokens classes) t <=? 1)%nat)
             (allClassNames bps).

(** ** What the second loop does to the class string

    [stripsFirst t s s']: [s'] is [s] without the leftmost occurrence of
    [t], or [s] itself when [t] does not occur in it. *)
Inductive stripsFirst (t : string) : string -> string -> Prop :=
| strips_none (s : string) :
    ~ occurs t s -> stripsFirst t s s
| strips_leftmost (pre post : string) :
    (forall pre' post' : string,
        pre ++ t ++ post = pre' ++ t ++ post' ->
        (String.length pre <= String.length pre')%nat) ->
    stripsFirst t (pre ++ t ++ post) (pre ++ post).

(** [stripsEach ts s s']: the same for each string of [ts] in turn. *)
Inductive stripsEach : list string -> string -> string -> Prop :=
| strips_nil (s : string) : stripsEach [] s s
| strips_cons (t : string) (ts : list string) (s s1 s2 : string) :
    stripsFirst t s s1 -> stripsEach ts s1 s2 -> stripsEach (t :: ts) s s2.

(** Where a string can be cut between two tokens: after white space, before
    white space, or at an end. *)
Definition endsWs (p : string) : Prop :=
  p = "" \/ exists (p0 : string) (c : ascii), p = p0 ++ String c "" /\ is_ws c = true.

Definition startsWs (q : string) : Prop :=
  q = "" \/ exists (c : ascii) (q0 : string), q = String c q0 /\ is_ws c = true.

(** [a] put at the end of a list that does not have it. *)
Definition add_absent (a : string) (l : list string) : list string :=
  if in_dec string_dec a l then l else (l ++ [a])%list.

(** In the tokens [l] the names stand on their own. *)
Definition alone (names l : list string) : Prop :=
  forall tok t : string, In tok l -> In t names -> occurs t tok -> tok = t.

(** A token: not empty, no white space in it. *)
Definition word (t : string) : Prop := noWs t = true /\ t <> "".

(** The prefix [updateClasses] picks for a breakpoint at a width: by the
    order of the two numbers, [EQUAL] when the width is neither above nor
    below. *)
Definition activePrefix (width : Z) (bp : string) : string :=
  match num_compare (num_of_Z width) (StringToNumber bp) with
  | Some Gt => PREFIXES.GREATER_THAN
  | Some Lt => PREFIXES.LESS_THAN
  | _ => PREFIXES.EQUAL
  end.

Definition prefixes : list string :=
  [PREFIXES.LESS_THAN; PREFIXES.GREATER_THAN; PREFIXES.EQUAL].

(** A token that is no class name of a breakpoint. *)
Definition unrelated (bps : list string) (t : string) : bool :=
  negb (isClassName bps t).

(** Nothing but decimal digits in it. *)
Fixpoint all_digits (s : string) : bool :=
  match s with
  | EmptyString => true
  | String c s' =>
      match digit_val 10 c with Some _ => all_digits s' | None => false end
  end.

(** White space only as single spaces. *)
Fixpoint singleSpaced (s : string) : bool :=
  match s with
  | EmptyString => true
  | String c s' =>
      (if is_ws c
       then Ascii.eqb c " "
            && match s' with String c' _ => negb (is_ws c') | EmptyString => true end
       else true)
      && singleSpaced s'
  end.

(** A string or a number: what [addBreakPoints] takes as one breakpoint. *)
Definition scalar (bp : JsValue) : bool :=
  (typeof bp =? "string")%string || (typeof bp =? "number")%string.

(** An entry whose numeric value is not below zero. *)
Definition nonNegative (s : string) : Prop :=
  num_ltb (StringToNumber s) zero = false.

(** ** The page is loaded

    The second function of the file runs [updateClasses] once and installs
    it as the listener of the [resize] event, which is [resize] above. *)
Definition beginResizeListener (st : State) : State := updateClasses st.

(** A call that neither registers a breakpoint nor lets the host page write
    the class attribute. *)
Definition keepsPage (c : Call) : bool :=
  match c with
  | CallHasBreakPoint _ | CallUpdateClasses | Resize _ => true
  | CallAddBreakPoints _ | SetClassName _ => false
  end.

(** The classes of a list, each after a space. *)
Fixpoint spaced (classes : list string) : string :=
  match classes with
  | [] => ""
  | a :: rest => " " ++ a ++ spaced rest
  end.

(** * Properties *)

(** ** The array of breakpoints *)

Lemma array_indexOf_from_range (a : list string) (x : string) (i : Z) :
  array_indexOf_from a x i = -1 \/ i <= array_indexOf_from a x i.
Proof.
  revert i; induction a as [|y a IH]; intros i; simpl.
  - now left.
  - destruct (y =? x)%string.
    + right; lia.
    + destruct (IH (i + 1)) as [H|H]; [now left | right; lia].
Qed.

Lemma array_indexOf_from_absent (a : list string) (x : string) (i : Z) :
  0 <= i -> (array_indexOf_from a x i = -1 <-> ~ In x a).
Proof.
  revert i; induction a as [|y a IH]; intros i Hi; simpl.
  - tauto.
  - destruct (String.eqb_spec y x) as [->|Hne].
    + split; [lia | intros H; exfalso; apply H; now left].
    + rewrite (IH (i + 1)) by lia. tauto.
Qed.

Lemma hasBreakPoint_In (bp : JsValue) (st : State) :
  hasBreakPoint bp st = true <-> In (ToString bp) (breakPoints st).
Proof.
  unfold hasBreakPoint, array_indexOf.
  rewrite negb_true_iff, Z.eqb_neq.
  pose proof (array_indexOf_from_absent (breakPoints st) (ToString bp) 0 (Z.le_refl 0)) as H.
  destruct (in_dec string_dec (ToString bp) (breakPoints st)); tauto.
Qed.

Lemma hasBreakPoint_false (bp : JsValue) (st : State) :
  hasBreakPoint bp st = false <-> ~ In (ToString bp) (breakPoints st).
Proof.
  rewrite <- hasBreakPoint_In. destruct (hasBreakPoint bp st); intuition congruence.
Qed.

Lemma breakPoints_updateClasses (st : State) :
  breakPoints (updateClasses st) = breakPoints st.
Proof. reflexivity. Qed.

Lemma breakPoints_addUnique (bp : JsValue) (st : State) :
  breakPoints (addUniqueBreakPoint bp st) =
  if negb (isNaN (ToNumber bp)) && negb (hasBreakPoint bp st)
  then (breakPoints st ++ [ToString bp])%list else breakPoints st.
Proof.
  unfold addUniqueBreakPoint.
  now destruct (negb (isNaN (ToNumber bp)) && negb (hasBreakPoint bp st)).
Qed.

Lemma addBreakPoints_addAll (bp : JsValue) (st : State) :
  addBreakPoints bp st = updateClasses (addAll (valuesOf bp) st).
Proof.
  unfold addBreakPoints, valuesOf, addAll.
  destruct bp; simpl; reflexivity.
Qed.

Lemma addUnique_NaN (bp : JsValue) (st : State) :
  isNaN (ToNumber bp) = true -> addUniqueBreakPoint bp st = st.
Proof. intros H; unfold addUniqueBreakPoint; now rewrite H. Qed.

Lemma addUnique_present (bp : JsValue) (st : State) :
  In (ToString bp) (breakPoints st) -> addUniqueBreakPoint bp st = st.
Proof.
  intros H; apply hasBreakPoint_In in H.
  unfold addUniqueBreakPoint; rewrite H. now rewrite andb_false_r.
Qed.

Lemma addUnique_fresh (bp : JsValue) (st : State) :
  isNaN (ToNumber bp) = false -> ~ In (ToString bp) (breakPoints st) ->
  breakPoints (addUniqueBreakPoint bp st) = (breakPoints st ++ [ToString bp])%list.
Proof.
  intros Hn Hf; apply hasBreakPoint_false in Hf.
  rewrite breakPoints_addUnique, Hn, Hf. reflexivity.
Qed.

Lemma addUnique_extends (bp : JsValue) (st : State) :
  exists ext, breakPoints (addUniqueBreakPoint bp st) = (breakPoints st ++ ext)%list.
Proof.
  rewrite breakPoints_addUnique.
  destruct (negb (isNaN (ToNumber bp)) && negb (hasBreakPoint bp st)).
  - now exists [ToString bp].
  - exists []. now rewrite app_nil_r.
Qed.

Lemma addUnique_NoDup (bp : JsValue) (st : State) :
  NoDup (breakPoints st) -> NoDup (breakPoints (addUniqueBreakPoint bp st)).
Proof.
  intros H. rewrite breakPoints_addUnique.
  destruct (isNaN (ToNumber bp)); simpl; trivial.
  destruct (hasBreakPoint bp st) eqn:E; simpl; trivial.
  apply hasBreakPoint_false in E.
  apply NoDup_rev in H. rewrite <- (rev_involutive (_ ++ _)%list), rev_app_distr.
  apply NoDup_rev. simpl. constructor; trivial. now rewrite <- in_rev.
Qed.

Lemma addAll_extends (vs : list JsValue) (st : State) :
  exists ext, breakPoints (addAll vs st) = (breakPoints st ++ ext)%list.
Proof.
  revert st; induction vs as [|v vs IH]; intros st; simpl.
  - exists []. now rewrite app_nil_r.
  - destruct (IH (addUniqueBreakPoint v st)) as [e2 H2].
    destruct (addUnique_extends v st) as [e1 H1].
    exists (e1 ++ e2)%list. unfold addAll in *. now rewrite H2, H1, app_assoc.
Qed.

Lemma addAll_NoDup (vs : list JsValue) (st : State) :
  NoDup (breakPoints st) -> NoDup (breakPoints (addAll vs st)).
Proof.
  revert st; induction vs as [|v vs IH]; intros st H; simpl; trivial.
  apply IH. now apply addUnique_NoDup.
Qed.

Lemma call_extends (c : Call) (st : State) :
  exists ext, breakPoints (call c st) = (breakPoints st ++ ext)%list.
Proof.
  destruct c; cbn [call]; try (exists []; now rewrite app_nil_r).
  rewrite addBreakPoints_addAll, breakPoints_updateClasses. apply addAll_extends.
Qed.

Lemma call_NoDup (c : Call) (st : State) :
  NoDup (breakPoints st) -> NoDup (breakPoints (call c st)).
Proof.
  destruct c; cbn [call]; trivial.
  rewrite addBreakPoints_addAll, breakPoints_updateClasses. apply addAll_NoDup.
Qed.

Lemma run_NoDup (calls : list Call) (st : State) :
  NoDup (breakPoints st) -> NoDup (breakPoints (run calls st)).
Proof.
  revert st; induction calls as [|c calls IH]; intros st H; simpl; trivial.
  apply IH. now apply call_NoDup.
Qed.

(** What is in the array after [addUniqueBreakPoint], after the values of
    one call, after a call and after a run of calls. *)
Lemma addUnique_In_iff (v : JsValue) (st : State) (s : string) :
  In s (breakPoints (addUniqueBreakPoint v st)) <->
  In s (breakPoints st) \/ (isNaN (ToNumber v) = false /\ ToString v = s).
Proof.
  rewrite breakPoints_addUnique.
  destruct (isNaN (ToNumber v)) eqn:Hn; cbn [negb andb].
  - intuition congruence.
  - destruct (hasBreakPoint v st) eqn:Hh; cbn [negb].
    + apply hasBreakPoint_In in Hh. split; [tauto|].
      intros [H|[_ <-]]; trivial.
    + rewrite in_app_iff. cbn [In]. intuition.
Qed.

Lemma addAll_In_iff (vs : list JsValue) (st : State) (s : string) :
  In s (breakPoints (addAll vs st)) <->
  In s (breakPoints st)
  \/ exists v : JsValue, In v vs /\ isNaN (ToNumber v) = false /\ ToString v = s.
Proof.
  revert st; induction vs as [|u vs IH]; intros st.
  - cbn. split; [tauto|]. intros [H|(v & [] & _)]. exact H.
  - change (addAll (u :: vs) st) with (addAll vs (addUniqueBreakPoint u st)).
    rewrite IH, addUnique_In_iff. split.
    + intros [[H|(Hn & E)]|(v & Hv & Hn & E)].
      * now left.
      * right. exists u. repeat split; trivial. now left.
      * right. exists v. repeat split; trivial. now right.
    + intros [H|(v & [<-|Hv] & Hn & E)].
      * left; now left.
      * left; right. now split.
      * right. now exists v.
Qed.

Lemma addBreakPoints_In_iff (bp : JsValue) (st : State) (s : string) :
  In s (breakPoints (addBreakPoints bp st)) <->
  In s (breakPoints st)
  \/ exists v : JsValue,
       In v (valuesOf bp) /\ isNaN (ToNumber v) = false /\ ToString v = s.
Proof.
  rewrite addBreakPoints_addAll, breakPoints_updateClasses. apply addAll_In_iff.
Qed.

Lemma call_In_iff (c : Call) (st : State) (s : string) :
  In s (breakPoints (call c st)) <->
  In s (breakPoints st)
  \/ exists bp v : JsValue,
       c = CallAddBreakPoints bp
       /\ In v (valuesOf bp) /\ isNaN (ToNumber v) = false /\ ToString v = s.
Proof.
  destruct c; cbn [call resize setClassName updateClasses breakPoints];
    try (split; [tauto | intros [H|(bp' & v & E & _)]; [exact H | discriminate]]).
  rewrite addBreakPoints_In_iff. split.
  - intros [H|(v & H)]; [now left | right; now exists bp, v].
  - intros [H|(bp' & v & E & H)]; [now left|].
    injection E as <-. right. now exists v.
Qed.

Lemma run_In_iff (calls : list Call) (st : State) (s : string) :
  In s (breakPoints (run calls st)) <->
  In s (breakPoints st)
  \/ exists bp v : JsValue,
       In (CallAddBreakPoints bp) calls
       /\ In v (valuesOf bp) /\ isNaN (ToNumber v) = false /\ ToString v = s.
Proof.
  revert st; induction calls as [|c calls IH]; intros st.
  - cbn. split; [tauto|]. intros [H|(bp & v & [] & _)]. exact H.
  - change (run (c :: calls) st) with (run calls (call c st)).
    rewrite IH, call_In_iff. split.
    + intros [[H|(bp & v & -> & H)]|(bp & v & Hc & H)].
      * now left.
      * right. exists bp, v. split; [now left | exact H].
      * right. exists bp, v. split; [now right | exact H].
    + intros [H|(bp & v & [->|Hc] & H)].
      * left; now left.
      * left; right. now exists bp, v.
      * right. now exists bp, v.
Qed.

Lemma valuesOf_scalar (bp : JsValue) : scalar bp = true -> valuesOf bp = [bp].
Proof. unfold valuesOf, scalar. now intros ->. Qed.

Lemma addBreakPoints_scalar (bp : JsValue) (st : State) :
  scalar bp = true ->
  breakPoints (addBreakPoints bp st) = breakPoints (addUniqueBreakPoint bp st).
Proof.
  intros H. rewrite addBreakPoints_addAll, breakPoints_updateClasses.
  now rewrite (valuesOf_scalar _ H).
Qed.

Lemma addUnique_In (bp : JsValue) (st : State) :
  isNaN (ToNumber bp) = false ->
  In (ToString bp) (breakPoints (addUniqueBreakPoint bp st)).
Proof.
  intros Hn. rewrite breakPoints_addUnique, Hn. simpl.
  destruct (hasBreakPoint bp st) eqn:E; simpl.
  - now apply hasBreakPoint_In.
  - apply in_or_app; right; now left.
Qed.

(** ** Strings *)

Lemma app_assoc_s (a b c : string) : (a ++ b) ++ c = a ++ (b ++ c).
Proof. induction a as [|x a IH]; simpl; [reflexivity | now rewrite IH]. Qed.

Lemma app_nil_r_s (a : string) : a ++ "" = a.
Proof. induction a as [|x a IH]; simpl; [reflexivity | now rewrite IH]. Qed.

Lemma length_app_s (a b : string) :
  String.length (a ++ b) = (String.length a + String.length b)%nat.
Proof. induction a as [|x a IH]; simpl; [reflexivity | now rewrite IH]. Qed.

Lemma app_inv_head_s (a b c : string) : a ++ b = a ++ c -> b = c.
Proof. induction a as [|x a IH]; simpl; intros H; [trivial | injection H; auto]. Qed.

Lemma length_zero_s (a : string) : String.length a = 0%nat -> a = "".
Proof. destruct a; simpl; [reflexivity | discriminate]. Qed.

Lemma prefix_app (p r : string) : prefix p (p ++ r) = true.
Proof.
  induction p as [|x p IH]; simpl.
  - now destruct r.
  - destruct (ascii_dec x x); [trivial | congruence].
Qed.

Lemma prefix_inv (p s : string) : prefix p s = true -> exists r, s = p ++ r.
Proof.
  revert s; induction p as [|x p IH]; intros s H.
  - now exists s.
  - destruct s as [|y s]; simpl in H; [discriminate|].
    destruct (ascii_dec x y) as [->|]; [|discriminate].
    destruct (IH s H) as [r ->]. now exists r.
Qed.

Lemma skip_app (p r : string) : skip (String.length p) (p ++ r) = r.
Proof. induction p as [|x p IH]; simpl; [now destruct r | trivial]. Qed.

Lemma occurs_refl (t : string) : occurs t t.
Proof. exists "", "". simpl. now rewrite app_nil_r_s. Qed.

Lemma occurs_prefix (t s : string) : prefix t s = true -> occurs t s.
Proof. intros H. destruct (prefix_inv _ _ H) as [r ->]. now exists "", r. Qed.

Lemma occurs_cons (t : string) (c : ascii) (s : string) :
  occurs t s -> occurs t (String c s).
Proof. intros (pre & post & ->). now exists (String c pre), post. Qed.

Lemma occurs_app_l (t u s : string) : occurs t s -> occurs t (u ++ s).
Proof.
  intros (pre & post & ->). exists (u ++ pre), post. now rewrite app_assoc_s.
Qed.

Lemma occurs_app_r (t s u : string) : occurs t s -> occurs t (s ++ u).
Proof.
  intros (pre & post & ->). exists pre, (post ++ u). now rewrite !app_assoc_s.
Qed.

Lemma occurs_same_length (t s : string) :
  occurs t s -> String.length s = String.length t -> s = t.
Proof.
  intros (pre & post & ->) H. rewrite !length_app_s in H.
  assert (Hpre : pre = "") by (apply length_zero_s; lia).
  assert (Hpost : post = "") by (apply length_zero_s; lia).
  subst. simpl. apply app_nil_r_s.
Qed.

(** [indexOf] is -1 exactly when there is no occurrence. *)
Lemma indexOf_from_found (s pat : string) (i : Z) :
  indexOf_from s pat i <> -1 -> occurs pat s.
Proof.
  revert i; induction s as [|c s IH]; intros i H; cbn [indexOf_from] in H.
  - destruct (prefix pat "") eqn:E; [now apply occurs_prefix | contradiction].
  - destruct (prefix pat (String c s)) eqn:E; [now apply occurs_prefix|].
    apply occurs_cons. now apply (IH (i + 1)).
Qed.

Lemma indexOf_from_absent (s pat : string) (i : Z) :
  0 <= i -> indexOf_from s pat i = -1 -> ~ occurs pat s.
Proof.
  revert i; induction s as [|c s IH]; intros i Hi H (pre & post & Hs);
    cbn [indexOf_from] in H.
  - destruct pre; simpl in Hs; [|discriminate].
    rewrite Hs, prefix_app in H. lia.
  - destruct (prefix pat (String c s)) eqn:E; [lia|].
    destruct pre as [|x pre]; simpl in Hs.
    + rewrite Hs, prefix_app in E. discriminate.
    + injection Hs as _ Hs. apply (IH (i + 1)); [lia | trivial |].
      now exists pre, post.
Qed.

Lemma occursb_true (t s : string) : occursb t s = true <-> occurs t s.
Proof.
  unfold occursb, indexOf. rewrite negb_true_iff, Z.eqb_neq. split.
  - apply indexOf_from_found.
  - intros Ho Hn. now apply (indexOf_from_absent s t 0 (Z.le_refl 0) Hn).
Qed.

Lemma occursb_false (t s : string) : occursb t s = false <-> ~ occurs t s.
Proof.
  rewrite <- occursb_true. destruct (occursb t s); intuition congruence.
Qed.

Lemma indexOf_absent (s t : string) : indexOf s t = -1 <-> ~ occurs t s.
Proof.
  rewrite <- occursb_false. unfold occursb.
  rewrite negb_false_iff, Z.eqb_eq. reflexivity.
Qed.

(** [replace] with a string pattern takes the leftmost occurrence, and only
    that one. *)
Lemma replace_absent (s t r : string) : ~ occurs t s -> replace s t r = s.
Proof.
  induction s as [|c s IH]; intros H; cbn [replace].
  - destruct (prefix t "") eqn:E; [|reflexivity].
    exfalso; apply H; now apply occurs_prefix.
  - destruct (prefix t (String c s)) eqn:E.
    + exfalso; apply H; now apply occurs_prefix.
    + rewrite IH; [reflexivity|]. intros Ho; apply H; now apply occurs_cons.
Qed.

Lemma replace_leftmost (s t r : string) :
  occurs t s ->
  exists pre post : string,
    s = pre ++ t ++ post
    /\ replace s t r = pre ++ r ++ post
    /\ forall pre' post' : string,
         s = pre' ++ t ++ post' -> (String.length pre <= String.length pre')%nat.
Proof.
  induction s as [|c s IH]; intros Ho.
  - destruct Ho as (pre & post & Hs).
    destruct pre; simpl in Hs; [|discriminate].
    destruct t; simpl in Hs; [|discriminate].
    exists "", "". simpl. rewrite app_nil_r_s. repeat split. intros; lia.
  - cbn [replace]. destruct (prefix t (String c s)) eqn:E.
    + destruct (prefix_inv _ _ E) as [post Hs]. exists "", post.
      rewrite Hs, skip_app. repeat split. intros; simpl; lia.
    + assert (Ho' : occurs t s).
      { destruct Ho as (pre & post & Hs). destruct pre as [|x pre]; simpl in Hs.
        - rewrite Hs, prefix_app in E. discriminate.
        - injection Hs as _ Hs. now exists pre, post. }
      destruct (IH Ho') as (pre & post & Hs & Hr & Hmin).
      exists (String c pre), post. simpl. rewrite Hr, <- Hs. repeat split.
      intros pre' post' Hs'. destruct pre' as [|x pre']; simpl in Hs'.
      * rewrite Hs', prefix_app in E. discriminate.
      * injection Hs' as _ Hs'. simpl. apply le_n_S. now apply (Hmin pre' post').
Qed.

Lemma replace_stripsFirst (s t : string) : stripsFirst t s (replace s t "").
Proof.
  destruct (occursb t s) eqn:E.
  - apply occursb_true in E.
    destruct (replace_leftmost s t "" E) as (pre & post & Hs & Hr & Hmin).
    rewrite Hr. simpl. rewrite Hs. constructor. now rewrite <- Hs.
  - apply occursb_false in E. rewrite replace_absent by trivial. now constructor.
Qed.

Lemma removeClasses_stripsEach (ts : list string) (s : string) :
  stripsEach ts s (removeClasses s ts).
Proof.
  revert s; induction ts as [|t ts IH]; intros s; simpl.
  - constructor.
  - econstructor; [apply replace_stripsFirst | apply IH].
Qed.

(** The two lists of the first loop. *)
Lemma constructLists_acc (w : JsValue) (bps toAdd toRemove : list string) :
  constructLists w bps toAdd toRemove =
  ((toAdd ++ map (fun bp => fst (classesFor w bp)) bps)%list,
   (toRemove ++ flat_map (fun bp => snd (classesFor w bp)) bps)%list).
Proof.
  revert toAdd toRemove; induction bps as [|bp bps IH]; intros toAdd toRemove; simpl.
  - now rewrite !app_nil_r.
  - destruct (classesFor w bp) as [a r] eqn:E. rewrite IH. simpl.
    now rewrite <- !app_assoc.
Qed.

Lemma classesToAdd_map (st : State) :
  classesToAdd st = map (fun bp => fst (classesFor (windowWidth st) bp)) (breakPoints st).
Proof. unfold classesToAdd. now rewrite constructLists_acc. Qed.

Lemma classesToRemove_flat_map (st : State) :
  classesToRemove st =
  flat_map (fun bp => snd (classesFor (windowWidth st) bp)) (breakPoints st).
Proof. unfold classesToRemove. now rewrite constructLists_acc. Qed.

(** ** Tokens *)

Lemma noWs_app (a b : string) : noWs (a ++ b) = noWs a && noWs b.
Proof.
  induction a as [|c a IH]; simpl; [reflexivity|].
  now rewrite IH, andb_assoc.
Qed.

Lemma tokens_from_word (cur w s : string) :
  noWs w = true -> tokens_from cur (w ++ s) = tokens_from (cur ++ w) s.
Proof.
  revert cur; induction w as [|c w IH]; intros cur H; simpl in *.
  - now rewrite app_nil_r_s.
  - apply andb_true_iff in H as [Hc Hw]. apply negb_true_iff in Hc.
    rewrite Hc, IH by trivial. now rewrite app_assoc_s.
Qed.

Lemma tokens_from_cut (cur p0 : string) (c : ascii) (v : string) :
  is_ws c = true ->
  tokens_from cur (p0 ++ String c v) =
  (tokens_from cur (p0 ++ String c "") ++ tokens v)%list.
Proof.
  intros Hc. revert cur; induction p0 as [|x p0 IH]; intros cur; simpl.
  - rewrite Hc. simpl. now rewrite app_nil_r.
  - destruct (is_ws x); rewrite IH; [now rewrite app_assoc | reflexivity].
Qed.

Lemma tokens_app (p v : string) :
  endsWs p -> tokens (p ++ v) = (tokens p ++ tokens v)%list.
Proof.
  intros [->|(p0 & c & -> & Hc)]; [reflexivity|].
  unfold tokens at 1 2. rewrite app_assoc_s. simpl.
  now apply tokens_from_cut.
Qed.

Lemma tokens_word (w q : string) :
  noWs w = true -> w <> "" -> startsWs q -> tokens (w ++ q) = w :: tokens q.
Proof.
  intros Hw Hne Hq. unfold tokens at 1. rewrite tokens_from_word by trivial. simpl.
  destruct Hq as [->|(c & q0 & -> & Hc)].
  - simpl. destruct w; [contradiction | reflexivity].
  - unfold tokens. simpl. rewrite Hc. destruct w; [contradiction | reflexivity].
Qed.

Lemma tokens_around (p w q : string) :
  endsWs p -> noWs w = true -> w <> "" -> startsWs q ->
  tokens (p ++ w ++ q) = (tokens p ++ w :: tokens q)%list.
Proof.
  intros Hp Hw Hne Hq. rewrite tokens_app by trivial. now rewrite tokens_word.
Qed.

Lemma tokens_from_occurs (t cur s : string) :
  In t (tokens_from cur s) -> occurs t (cur ++ s).
Proof.
  revert cur; induction s as [|c s IH]; intros cur H; simpl in H.
  - destruct cur; simpl in H; [contradiction|]. destruct H as [<-|[]].
    rewrite app_nil_r_s. apply occurs_refl.
  - destruct (is_ws c).
    + apply in_app_or in H as [H|H].
      * destruct cur; simpl in H; [contradiction|]. destruct H as [<-|[]].
        apply occurs_app_r, occurs_refl.
      * apply occurs_app_l, occurs_cons. apply (IH "" H).
    + apply IH in H. now rewrite app_assoc_s in H.
Qed.

Lemma tokens_occurs (t s : string) : In t (tokens s) -> occurs t s.
Proof. apply (tokens_from_occurs t ""). Qed.

Lemma split_last_ws (s : string) :
  exists p x : string, s = p ++ x /\ noWs x = true /\ endsWs p.
Proof.
  induction s as [|c s (p & x & -> & Hx & Hp)].
  - exists "", "". repeat split. now left.
  - destruct Hp as [->|(p0 & d & -> & Hd)].
    + destruct (is_ws c) eqn:Hc.
      * exists (String c ""), x. repeat split; trivial.
        right. now exists "", c.
      * exists "", (String c x). simpl. rewrite Hc, Hx. repeat split. now left.
    + exists (String c (p0 ++ String d "")), x. repeat split; trivial.
      right. now exists (String c p0), d.
Qed.

Lemma split_first_ws (s : string) :
  exists y q : string, s = y ++ q /\ noWs y = true /\ startsWs q.
Proof.
  induction s as [|c s (y & q & -> & Hy & Hq)].
  - exists "", "". repeat split. now left.
  - destruct (is_ws c) eqn:Hc.
    + exists "", (String c (y ++ q)). repeat split. right. now exists c, (y ++ q).
    + exists (String c y), q. simpl. rewrite Hc, Hy. now repeat split.
Qed.

(** An occurrence of a string without white space lies in one token. *)
Lemma occurrence_in_token (t pre post : string) :
  noWs t = true -> t <> "" ->
  exists p x y q : string,
    pre = p ++ x /\ post = y ++ q
    /\ endsWs p /\ startsWs q
    /\ noWs (x ++ t ++ y) = true /\ x ++ t ++ y <> ""
    /\ tokens (pre ++ t ++ post) = (tokens p ++ (x ++ t ++ y)%string :: tokens q)%list.
Proof.
  intros Ht Hne.
  destruct (split_last_ws pre) as (p & x & -> & Hx & Hp).
  destruct (split_first_ws post) as (y & q & -> & Hy & Hq).
  exists p, x, y, q.
  assert (Hw : noWs (x ++ t ++ y) = true) by now rewrite !noWs_app, Hx, Ht, Hy.
  assert (Hn : x ++ t ++ y <> "").
  { intros E. apply (f_equal String.length) in E. rewrite !length_app_s in E.
    destruct t; [contradiction | simpl in E; lia]. }
  repeat split; trivial.
  rewrite <- (tokens_around p (x ++ t ++ y) q) by trivial.
  now rewrite !app_assoc_s.
Qed.

Lemma occurs_token (t s : string) :
  noWs t = true -> t <> "" -> occurs t s ->
  exists w : string, In w (tokens s) /\ occurs t w.
Proof.
  intros Ht Hne (pre & post & ->).
  destruct (occurrence_in_token t pre post Ht Hne)
    as (p & x & y & q & _ & _ & _ & _ & _ & _ & ->).
  exists (x ++ t ++ y). split.
  - apply in_or_app; right; now left.
  - now exists x, y.
Qed.

Lemma remove_first_absent (x : string) (l : list string) :
  ~ In x l -> remove_first x l = l.
Proof.
  induction l as [|y l IH]; intros H; simpl; [reflexivity|].
  destruct (String.eqb_spec y x) as [->|_].
  - exfalso; apply H; now left.
  - rewrite IH; [reflexivity|]. intros Hi; apply H; now right.
Qed.

Lemma remove_first_middle (x : string) (l1 l2 : list string) :
  ~ In x l1 -> remove_first x (l1 ++ x :: l2) = (l1 ++ l2)%list.
Proof.
  induction l1 as [|y l1 IH]; intros H; simpl.
  - now rewrite String.eqb_refl.
  - destruct (String.eqb_spec y x) as [->|_].
    + exfalso; apply H; now left.
    + rewrite IH; [reflexivity|]. intros Hi; apply H; now right.
Qed.

(** On a string where [t] occurs in no other token, stripping the leftmost
    occurrence of [t] takes the first token [t] out. *)
Lemma tokens_replace (s t : string) :
  noWs t = true -> t <> "" ->
  (forall tok : string, In tok (tokens s) -> occurs t tok -> tok = t) ->
  tokens (replace s t "") = remove_first t (tokens s).
Proof.
  intros Ht Hne Hs.
  destruct (occursb t s) eqn:E.
  - apply occursb_true in E.
    destruct (replace_leftmost s t "" E) as (pre & post & -> & Hr & Hmin).
    rewrite Hr. simpl.
    destruct (occurrence_in_token t pre post Ht Hne)
      as (p & x & y & q & Hpre & Hpost & Hp & Hq & Hw & Hn & Htok).
    assert (Hxy : x ++ t ++ y = t).
    { apply Hs; [|now exists x, y]. rewrite Htok.
      apply in_or_app; right; now left. }
    assert (Hlen : String.length (x ++ t ++ y) = String.length t) by now rewrite Hxy.
    rewrite !length_app_s in Hlen.
    assert (Hx : x = "") by (apply length_zero_s; lia).
    assert (Hy : y = "") by (apply length_zero_s; lia).
    subst x y. rewrite app_nil_r_s in Hpre. simpl in Hpost. subst pre post.
    rewrite Htok, Hxy, tokens_app by trivial.
    rewrite remove_first_middle; [reflexivity|].
    intros Hin. apply tokens_occurs in Hin as (a & b & Hab).
    specialize (Hmin a (b ++ t ++ q)).
    rewrite Hab, !app_assoc_s, !length_app_s in Hmin.
    specialize (Hmin eq_refl). destruct t; [contradiction | simpl in Hmin; lia].
  - apply occursb_false in E. rewrite replace_absent by trivial.
    rewrite remove_first_absent; [reflexivity|].
    intros Hin. apply E. now apply tokens_occurs.
Qed.

Lemma tokens_from_trailing (cur s : string) (c : ascii) :
  is_ws c = true -> tokens_from cur (s ++ String c "") = tokens_from cur s.
Proof.
  intros Hc. revert cur; induction s as [|x s IH]; intros cur; simpl.
  - rewrite Hc. simpl. now rewrite app_nil_r.
  - destruct (is_ws x); now rewrite IH.
Qed.

Lemma tokens_one (w : string) : word w -> tokens w = [w].
Proof.
  intros [Hw Hne]. rewrite <- (app_nil_r_s w) at 1.
  rewrite tokens_word; trivial. now left.
Qed.

(** The class string with one more class. *)
Lemma tokens_append (s a : string) :
  word a -> tokens (s ++ " " ++ a) = (tokens s ++ [a])%list.
Proof.
  intros Ha. unfold tokens at 1. simpl.
  rewrite tokens_from_cut by reflexivity.
  rewrite tokens_from_trailing by reflexivity.
  rewrite (tokens_one a Ha). reflexivity.
Qed.

(** Collapsing the white space moves no token. *)
Lemma tokens_from_replace_ws_runs (cur s : string) :
  tokens_from cur (replace_ws_runs s) = tokens_from cur s.
Proof.
  revert cur; induction s as [|c s IH]; intros cur; [reflexivity|].
  cbn [replace_ws_runs]. destruct (is_ws c) eqn:Hc.
  - destruct s as [|c' s'].
    + simpl. now rewrite Hc.
    + destruct (is_ws c') eqn:Hc'.
      * rewrite IH. simpl. rewrite Hc, Hc'. reflexivity.
      * cbn [tokens_from]. rewrite Hc. change (is_ws " ") with true.
        cbv iota. now rewrite IH.
  - cbn [tokens_from]. rewrite Hc. apply IH.
Qed.

Lemma tokens_replace_ws_runs (s : string) : tokens (replace_ws_runs s) = tokens s.
Proof. apply tokens_from_replace_ws_runs. Qed.

(** After [updateClasses] the white space of the class attribute is single
    spaces, so that its tokens are those any reading of white space gives. *)
Lemma replace_ws_runs_head (c : ascii) (s : string) :
  is_ws c = false ->
  replace_ws_runs (String c s) = String c (replace_ws_runs s).
Proof. intros H. cbn [replace_ws_runs]. now rewrite H. Qed.

Lemma replace_ws_runs_singleSpaced (s : string) :
  singleSpaced (replace_ws_runs s) = true.
Proof.
  induction s as [|c s IH]; [reflexivity|].
  cbn [replace_ws_runs]. destruct (is_ws c) eqn:Hc.
  - destruct s as [|c' s]; [reflexivity|].
    destruct (is_ws c') eqn:Hc'; [exact IH|].
    rewrite replace_ws_runs_head in * by trivial.
    cbn [singleSpaced] in *. change (is_ws " ") with true. cbv iota.
    rewrite Hc' in *. exact IH.
  - cbn [singleSpaced]. rewrite Hc. exact IH.
Qed.

Lemma updateClasses_singleSpaced (st : State) :
  singleSpaced (className (updateClasses st)) = true.
Proof. apply replace_ws_runs_singleSpaced. Qed.

(** *** Lists of tokens *)

Lemma remove_first_In (x y : string) (l : list string) :
  In y (remove_first x l) -> In y l.
Proof.
  induction l as [|z l IH]; simpl; [trivial|].
  destruct (z =? x)%string; simpl; intuition.
Qed.

Lemma remove_first_count_le (x t : string) (l : list string) :
  (count_occ string_dec (remove_first x l) t <= count_occ string_dec l t)%nat.
Proof.
  induction l as [|z l IH]; simpl; [lia|].
  destruct (String.eqb_spec z x) as [->|Hne]; simpl;
    destruct (string_dec _ t); lia.
Qed.

Lemma remove_first_count (x : string) (l : list string) :
  count_occ string_dec (remove_first x l) x = pred (count_occ string_dec l x).
Proof.
  induction l as [|z l IH]; simpl; [reflexivity|].
  destruct (String.eqb_spec z x) as [->|Hne]; simpl.
  - destruct (string_dec x x); [reflexivity | contradiction].
  - destruct (string_dec z x); [contradiction | trivial].
Qed.

Lemma remove_first_filter (f : string -> bool) (x : string) (l : list string) :
  f x = false -> filter f (remove_first x l) = filter f l.
Proof.
  intros Hx. induction l as [|z l IH]; simpl; [reflexivity|].
  destruct (String.eqb_spec z x) as [->|Hne]; simpl.
  - now rewrite Hx.
  - now rewrite IH.
Qed.

Lemma add_absent_In (a y : string) (l : list string) :
  In y (add_absent a l) <-> In y l \/ (y = a /\ ~ In a l).
Proof.
  unfold add_absent. destruct (in_dec string_dec a l) as [Hi|Hn].
  - intuition.
  - rewrite in_app_iff. simpl. intuition.
Qed.

Lemma add_absent_has (a : string) (l : list string) : In a (add_absent a l).
Proof.
  apply add_absent_In. destruct (in_dec string_dec a l); [now left | now right].
Qed.

Lemma add_absent_count (a t : string) (l : list string) :
  (count_occ string_dec l t <= 1)%nat ->
  (count_occ string_dec (add_absent a l) t <= 1)%nat.
Proof.
  intros H. unfold add_absent. destruct (in_dec string_dec a l) as [Hi|Hn]; trivial.
  rewrite count_occ_app. simpl. destruct (string_dec a t) as [->|]; [|lia].
  apply (count_occ_not_In string_dec) in Hn. lia.
Qed.

Lemma alone_spec (names l : list string) :
  forallb (fun tok => forallb (fun t => implb (occursb t tok) (tok =? t)%string) names) l
  = true <-> alone names l.
Proof.
  unfold alone. rewrite forallb_forall. split.
  - intros H tok t Htok Ht Ho. specialize (H tok Htok).
    rewrite forallb_forall in H. specialize (H t Ht).
    apply occursb_true in Ho. rewrite Ho in H. now apply String.eqb_eq.
  - intros H tok Htok. apply forallb_forall. intros t Ht.
    destruct (occursb t tok) eqn:E; [|reflexivity]. simpl.
    apply String.eqb_eq. apply occursb_true in E. now apply (H tok t).
Qed.

Lemma alone_incl (names l l' : list string) :
  (forall x, In x l' -> In x l) -> alone names l -> alone names l'.
Proof. intros Hi H tok t Htok. apply H. now apply Hi. Qed.

(** On tokens where [a] stands alone, the test of the third loop asks
    whether [a] is a token. *)
Lemma indexOf_tokens (s a : string) :
  word a ->
  (forall tok : string, In tok (tokens s) -> occurs a tok -> tok = a) ->
  (indexOf s a = -1 <-> ~ In a (tokens s)).
Proof.
  intros [Ha Hne] Hs. rewrite indexOf_absent. split.
  - intros H Hin. apply H. now apply tokens_occurs.
  - intros H Ho. apply H.
    destruct (occurs_token a s Ha Hne Ho) as (w & Hw & Hoc).
    now rewrite <- (Hs w Hw Hoc).
Qed.

(** *** The second and the third loop on the tokens *)

Lemma removeClasses_tokens (R : list string) (s : string) :
  Forall word R ->
  alone R (tokens s) ->
  tokens (removeClasses s R) = fold_left (fun l r => remove_first r l) R (tokens s).
Proof.
  revert s; induction R as [|r R IH]; intros s Hw Hs; cbn [removeClasses fold_left];
    [reflexivity|].
  inversion Hw as [|? ? [Hr Hne] HwR]; subst.
  assert (Hstep : tokens (replace s r "") = remove_first r (tokens s)).
  { apply tokens_replace; trivial. intros tok Htok. apply Hs; [trivial | now left]. }
  rewrite IH, Hstep; trivial.
  rewrite Hstep. intros tok t Htok Ht. apply Hs.
  - now apply remove_first_In in Htok.
  - now right.
Qed.

Lemma addClasses_tokens_incl (A : list string) (s : string) :
  Forall word A ->
  exists A' : list string,
    tokens (addClasses s A) = (tokens s ++ A')%list /\ incl A' A.
Proof.
  revert s; induction A as [|a A IH]; intros s Hw; cbn [addClasses].
  - exists []. split; [now rewrite app_nil_r | apply incl_refl].
  - inversion Hw as [|? ? Ha HwA]; subst.
    destruct (indexOf s a =? -1).
    + destruct (IH (s ++ " " ++ a) HwA) as (A' & HA' & Hi).
      exists (a :: A'). rewrite HA', tokens_append by trivial.
      rewrite <- app_assoc. split; [reflexivity|].
      intros x [<-|Hx]; [now left | right; now apply Hi].
    + destruct (IH s HwA) as (A' & HA' & Hi).
      exists A'. split; [trivial | now apply incl_tl].
Qed.

Lemma addClasses_tokens (A : list string) (s : string) :
  Forall word A ->
  alone A (tokens s ++ A) ->
  tokens (addClasses s A) = fold_left (fun l a => add_absent a l) A (tokens s).
Proof.
  revert s; induction A as [|a A IH]; intros s Hw Hs; cbn [addClasses fold_left];
    [reflexivity|].
  inversion Hw as [|? ? Ha HwA]; subst.
  assert (Htest : indexOf s a = -1 <-> ~ In a (tokens s)).
  { apply indexOf_tokens; trivial. intros tok Htok.
    apply Hs; [apply in_or_app; now left | now left]. }
  assert (Hstep : tokens (if indexOf s a =? -1 then s ++ " " ++ a else s)
                  = add_absent a (tokens s)).
  { unfold add_absent. destruct (in_dec string_dec a (tokens s)) as [Hi|Hn].
    - destruct (Z.eqb_spec (indexOf s a) (-1)) as [e|_]; [|reflexivity].
      apply Htest in e. contradiction.
    - apply Htest in Hn. rewrite Hn. simpl. now apply tokens_append. }
  rewrite IH, Hstep; trivial.
  rewrite Hstep. intros tok t Htok Ht. apply Hs; [|now right].
  apply in_app_or in Htok as [Htok|Htok].
  - apply add_absent_In in Htok as [Htok|[-> _]].
    + apply in_or_app; now left.
    + apply in_or_app; right; now left.
  - apply in_or_app; right; now right.
Qed.

(** ** The first loop *)

Lemma num_compare_antisym (x y : JsNum) :
  num_compare y x = option_map CompOpp (num_compare x y).
Proof.
  destruct x as [|a|a m1 e1], y as [|b|b m2 e2]; simpl; trivial.
  - now destruct a, b.
  - now destruct a.
  - now destruct b.
  - now rewrite (Z.min_comm e2 e1), (Z.compare_antisym (signed a m1 * _)).
Qed.

Lemma classesFor_compare (x : JsNum) (bp : string) :
  classesFor (VNumber x) bp =
  match num_compare x (StringToNumber bp) with
  | Some Gt => (PREFIXES.GREATER_THAN ++ bp, [PREFIXES.LESS_THAN ++ bp; PREFIXES.EQUAL ++ bp])
  | Some Lt => (PREFIXES.LESS_THAN ++ bp, [PREFIXES.GREATER_THAN ++ bp; PREFIXES.EQUAL ++ bp])
  | _ => (PREFIXES.EQUAL ++ bp, [PREFIXES.LESS_THAN ++ bp; PREFIXES.GREATER_THAN ++ bp])
  end.
Proof.
  unfold classesFor, greaterThan, lessThan, num_ltb.
  cbn [ToPrimitive ToNumber].
  rewrite (num_compare_antisym x (StringToNumber bp)).
  destruct (num_compare x (StringToNumber bp)) as [[| |]|]; reflexivity.
Qed.

Lemma classesFor_fst (width : Z) (bp : string) :
  fst (classesFor (VNumber (num_of_Z width)) bp) = activePrefix width bp ++ bp.
Proof.
  rewrite classesFor_compare. unfold activePrefix.
  destruct (num_compare _ _) as [[| |]|]; reflexivity.
Qed.

Lemma classesFor_snd (width : Z) (bp t : string) :
  In t (snd (classesFor (VNumber (num_of_Z width)) bp)) <->
  exists p : string, In p prefixes /\ p <> activePrefix width bp /\ t = p ++ bp.
Proof.
  rewrite classesFor_compare. unfold activePrefix, prefixes.
  destruct (num_compare _ _) as [[| |]|]; cbn [snd In];
    (split; [intros [<-|[<-|[]]] | intros (p & [<-|[<-|[<-|[]]]] & Hne & ->)]);
    try congruence; try tauto;
    match goal with
    | |- exists p : string, _ /\ _ /\ (?x ++ _) = _ =>
        exists x; repeat split; [tauto | discriminate]
    end.
Qed.

Lemma name_inj (p p' b b' : string) :
  In p prefixes -> In p' prefixes -> p ++ b = p' ++ b' -> p = p' /\ b = b'.
Proof.
  unfold prefixes.
  intros [<-|[<-|[<-|[]]]] [<-|[<-|[<-|[]]]] H; cbn in H; try discriminate;
    injection H; auto.
Qed.

Lemma classNames_prefix (bp t : string) :
  In t (classNames bp) <-> exists p : string, In p prefixes /\ t = p ++ bp.
Proof.
  unfold classNames, prefixes. split.
  - intros [<-|[<-|[<-|[]]]]; eexists; (split; [|reflexivity]); cbn; tauto.
  - intros (p & [<-|[<-|[<-|[]]]] & ->); cbn; tauto.
Qed.

Lemma allClassNames_In (bps : list string) (t : string) :
  In t (allClassNames bps) <->
  exists (bp p : string), In bp bps /\ In p prefixes /\ t = p ++ bp.
Proof.
  unfold allClassNames. rewrite in_flat_map. split.
  - intros (bp & Hbp & Ht). apply classNames_prefix in Ht as (p & Hp & ->).
    now exists bp, p.
  - intros (bp & p & Hbp & Hp & ->). exists bp. split; trivial.
    apply classNames_prefix. now exists p.
Qed.

Lemma activePrefix_In (width : Z) (bp : string) : In (activePrefix width bp) prefixes.
Proof.
  unfold activePrefix, prefixes.
  destruct (num_compare _ _) as [[| |]|]; cbn; tauto.
Qed.

Lemma name_word (p bp : string) : In p prefixes -> noWs bp = true -> word (p ++ bp).
Proof.
  unfold prefixes. intros [<-|[<-|[<-|[]]]] H; split; cbn; trivial; discriminate.
Qed.

Lemma isClassName_In (bps : list string) (t : string) :
  isClassName bps t = true <-> In t (allClassNames bps).
Proof.
  unfold isClassName. rewrite existsb_exists. split.
  - intros (x & Hx & E). apply String.eqb_eq in E. now subst.
  - intros H. exists t. split; trivial. apply String.eqb_refl.
Qed.

(** What the first loop collects are class names of the breakpoints. *)
Lemma classesToAdd_In (st : State) (t : string) :
  In t (classesToAdd st) <->
  exists bp : string, In bp (breakPoints st) /\ t = activePrefix (clientWidth st) bp ++ bp.
Proof.
  rewrite classesToAdd_map, in_map_iff. unfold windowWidth.
  split; intros (bp & H1 & H2).
  - rewrite classesFor_fst in H1. now exists bp.
  - exists bp. now rewrite classesFor_fst.
Qed.

Lemma classesToRemove_In (st : State) (t : string) :
  In t (classesToRemove st) <->
  exists bp p : string,
    In bp (breakPoints st) /\ In p prefixes
    /\ p <> activePrefix (clientWidth st) bp /\ t = p ++ bp.
Proof.
  rewrite classesToRemove_flat_map, in_flat_map. unfold windowWidth. split.
  - intros (bp & Hbp & Ht). apply classesFor_snd in Ht as (p & Hp & Hne & ->).
    now exists bp, p.
  - intros (bp & p & Hbp & Hp & Hne & ->). exists bp. split; trivial.
    apply classesFor_snd. now exists p.
Qed.

Lemma classesToAdd_names (st : State) (t : string) :
  In t (classesToAdd st) -> In t (allClassNames (breakPoints st)).
Proof.
  intros H. apply classesToAdd_In in H as (bp & Hbp & ->).
  apply allClassNames_In. exists bp, (activePrefix (clientWidth st) bp).
  repeat split; trivial. apply activePrefix_In.
Qed.

Lemma classesToRemove_names (st : State) (t : string) :
  In t (classesToRemove st) -> In t (allClassNames (breakPoints st)).
Proof.
  intros H. apply classesToRemove_In in H as (bp & p & Hbp & Hp & _ & ->).
  apply allClassNames_In. now exists bp, p.
Qed.

Lemma names_words (bps : list string) :
  forallb noWs bps = true -> Forall word (allClassNames bps).
Proof.
  intros H. rewrite forallb_forall in H. apply Forall_forall. intros t Ht.
  apply allClassNames_In in Ht as (bp & p & Hbp & Hp & ->).
  apply name_word; auto.
Qed.

(** ** The class attribute after [updateClasses] *)

Lemma filter_none (f : string -> bool) (l : list string) :
  (forall x, In x l -> f x = false) -> filter f l = [].
Proof.
  induction l as [|x l IH]; intros H; simpl; [reflexivity|].
  rewrite (H x) by now left. apply IH. intros y Hy. apply H. now right.
Qed.

Lemma fold_remove_filter (f : string -> bool) (R l : list string) :
  (forall r, In r R -> f r = false) ->
  filter f (fold_left (fun l r => remove_first r l) R l) = filter f l.
Proof.
  revert l; induction R as [|r R IH]; intros l H; simpl; [reflexivity|].
  rewrite IH by (intros; apply H; now right).
  apply remove_first_filter. apply H. now left.
Qed.

Lemma fold_remove_In (R l : list string) (x : string) :
  In x (fold_left (fun l r => remove_first r l) R l) -> In x l.
Proof.
  revert l; induction R as [|r R IH]; intros l H; simpl in H; [trivial|].
  apply IH in H. now apply remove_first_In in H.
Qed.

Lemma fold_remove_count_le (R l : list string) (t : string) :
  (count_occ string_dec (fold_left (fun l r => remove_first r l) R l) t
   <= count_occ string_dec l t)%nat.
Proof.
  revert l; induction R as [|r R IH]; intros l; simpl; [lia|].
  etransitivity; [apply IH | apply remove_first_count_le].
Qed.

Lemma fold_remove_gone (R l : list string) (r : string) :
  In r R -> (count_occ string_dec l r <= 1)%nat ->
  ~ In r (fold_left (fun l r => remove_first r l) R l).
Proof.
  revert l; induction R as [|x R IH]; intros l Hr Hc; simpl; [contradiction|].
  destruct (string_dec x r) as [->|Hne].
  - intros Hin. apply (count_occ_In string_dec) in Hin.
    pose proof (fold_remove_count_le R (remove_first r l) r) as Hle.
    rewrite remove_first_count in Hle. lia.
  - destruct Hr as [Hr|Hr]; [contradiction|]. apply IH; trivial.
    etransitivity; [apply remove_first_count_le | trivial].
Qed.

Lemma fold_add_mono (A l : list string) (x : string) :
  In x l -> In x (fold_left (fun l a => add_absent a l) A l).
Proof.
  revert l; induction A as [|a A IH]; intros l H; simpl; [trivial|].
  apply IH. apply add_absent_In. now left.
Qed.

Lemma fold_add_has (A l : list string) (a : string) :
  In a A -> In a (fold_left (fun l a => add_absent a l) A l).
Proof.
  revert l; induction A as [|x A IH]; intros l H; simpl; [contradiction|].
  destruct H as [->|H]; [|now apply IH].
  apply fold_add_mono, add_absent_has.
Qed.

Lemma fold_add_In (A l : list string) (x : string) :
  In x (fold_left (fun l a => add_absent a l) A l) -> In x l \/ In x A.
Proof.
  revert l; induction A as [|a A IH]; intros l H; simpl in *; [now left|].
  apply IH in H as [H|H]; [|tauto].
  apply add_absent_In in H as [H|[-> _]]; tauto.
Qed.

Lemma fold_add_count (A l : list string) (t : string) :
  (count_occ string_dec l t <= 1)%nat ->
  (count_occ string_dec (fold_left (fun l a => add_absent a l) A l) t <= 1)%nat.
Proof.
  revert l; induction A as [|a A IH]; intros l H; simpl; [trivial|].
  apply IH. now apply add_absent_count.
Qed.

Lemma alone_names (names R l : list string) :
  (forall t, In t R -> In t names) -> alone names l -> alone R l.
Proof. intros Hi H tok t Htok Ht. apply H; auto. Qed.

Lemma words_incl (names R : list string) :
  (forall t, In t R -> In t names) -> Forall word names -> Forall word R.
Proof.
  intros Hi H. rewrite Forall_forall in *. auto.
Qed.

(** The tokens after the second loop, when the class names stand on their
    own. *)
Lemma afterRemoval_tokens (st : State) :
  standAlone (breakPoints st) (className st) = true ->
  tokens (afterRemoval st) =
  fold_left (fun l r => remove_first r l) (classesToRemove st) (tokens (className st)).
Proof.
  unfold standAlone. intros H. apply andb_true_iff in H as [Hws Hal].
  apply alone_spec in Hal. apply removeClasses_tokens.
  - apply (words_incl (allClassNames (breakPoints st))).
    + apply classesToRemove_names.
    + now apply names_words.
  - apply (alone_names (allClassNames (breakPoints st))); trivial.
    apply classesToRemove_names.
Qed.

(** ** Tidy class attributes *)

Lemma tidy_inv (bps : list string) (classes : string) :
  tidy bps classes = true <->
  standAlone bps classes = true
  /\ alone (allClassNames bps) (allClassNames bps)
  /\ forall t : string, In t (allClassNames bps) ->
       (count_occ string_dec (tokens classes) t <= 1)%nat.
Proof.
  unfold tidy. rewrite !andb_true_iff, alone_spec. split.
  - intros [[H1 H2] H3]. split; [trivial|]. split; [trivial|].
    intros t Ht. rewrite forallb_forall in H3. apply Nat.leb_le. now apply H3.
  - intros (H1 & H2 & H3). repeat split; trivial.
    apply forallb_forall. intros t Ht. apply Nat.leb_le. now apply H3.
Qed.

Lemma standAlone_inv (bps : list string) (classes : string) :
  standAlone bps classes = true <->
  forallb noWs bps = true /\ alone (allClassNames bps) (tokens classes).
Proof. unfold standAlone. now rewrite andb_true_iff, alone_spec. Qed.

(** The tokens after [updateClasses], when the class attribute is tidy. *)
Lemma updateClasses_tokens (st : State) :
  tidy (breakPoints st) (className st) = true ->
  tokens (className (updateClasses st)) =
  fold_left (fun l a => add_absent a l) (classesToAdd st)
    (fold_left (fun l r => remove_first r l) (classesToRemove st)
       (tokens (className st))).
Proof.
  intros H. apply tidy_inv in H as (Hsa & Hnames & _).
  pose proof Hsa as Hsa'. apply standAlone_inv in Hsa' as (Hws & Hal).
  cbn [updateClasses className]. rewrite tokens_replace_ws_runs. unfold afterAddition.
  rewrite addClasses_tokens.
  - now rewrite afterRemoval_tokens.
  - apply (words_incl (allClassNames (breakPoints st))).
    + apply classesToAdd_names.
    + now apply names_words.
  - rewrite afterRemoval_tokens by trivial.
    intros tok t Htok Ht. apply classesToAdd_names in Ht.
    apply in_app_or in Htok as [Htok|Htok].
    + apply fold_remove_In in Htok. now apply Hal.
    + apply classesToAdd_names in Htok. now apply Hnames.
Qed.

(** ** The empty string *)

Lemma trim_left_whitespaceOnly (s : string) :
  whitespaceOnly s = true -> trim_left s = "".
Proof.
  induction s as [|c s IH]; simpl; [reflexivity|].
  intros H. apply andb_true_iff in H as [Hc Hs]. rewrite Hc. now apply IH.
Qed.

Lemma StringToNumber_whitespaceOnly (s : string) :
  whitespaceOnly s = true -> StringToNumber s = zero.
Proof.
  intros H. unfold StringToNumber. now rewrite trim_left_whitespaceOnly.
Qed.

(** A positive integer is a positive number, or too large. *)
Lemma round_ratio_integer (neg : bool) (p : Z) :
  0 < p ->
  round_ratio neg p 1 = Inf neg
  \/ exists m e : Z, round_ratio neg p 1 = Fin neg m e /\ 0 < m.
Proof.
  intros Hp. unfold round_ratio.
  destruct (Z.leb_spec p 0) as [Hle|_]; [lia|].
  change (Z.log2 1) with 0. rewrite Z.sub_0_r, Z.mul_1_l.
  pose proof (Z.log2_nonneg p) as Hd.
  destruct (Z.log2_spec p Hp) as [Hlo _].
  destruct (Z.leb_spec 0 (Z.log2 p)) as [_|Hlt]; [|lia].
  destruct (Z.leb_spec (2 ^ Z.log2 p) p) as [_|Hlt]; [|lia].
  set (e := Z.max (Z.log2 p - (prec - 1)) emin).
  set (num := if 0 <=? e then p else p * 2 ^ (- e)).
  set (den := if 0 <=? e then 1 * 2 ^ e else 1).
  assert (Hq : 0 < num / den).
  { apply Z.div_str_pos. subst num den.
    destruct (Z.leb_spec 0 e) as [He|He].
    - rewrite Z.mul_1_l. split; [now apply Z.pow_pos_nonneg|].
      transitivity (2 ^ Z.log2 p); trivial.
      apply Z.pow_le_mono_r; [lia|]. subst e. unfold prec, emin. lia.
    - split; [lia|]. assert (0 < 2 ^ (- e)) by (apply Z.pow_pos_nonneg; lia). nia. }
  set (m := num / den) in *.
  set (m' := if (den <? 2 * (num mod den)) || ((den =? 2 * (num mod den)) && Z.odd m)
             then m + 1 else m).
  assert (Hm' : 0 < m') by (subst m'; destruct (_ || _); lia).
  destruct (m' =? 2 ^ prec).
  - destruct (emax <? e + 1); [now left | right].
    exists (2 ^ (prec - 1)), (e + 1). split; [reflexivity | reflexivity].
  - destruct (emax <? e); [now left | right].
    now exists m', e.
Qed.

Lemma num_compare_of_Z_zero (w : Z) : num_compare (num_of_Z w) zero = Some (w ?= 0).
Proof.
  unfold num_of_Z. destruct (Z.compare_spec w 0) as [->|Hw|Hw].
  - reflexivity.
  - destruct (Z.ltb_spec w 0) as [_|]; [|lia].
    destruct (round_ratio_integer true (Z.abs w)) as [->|(m & e & -> & Hm)];
      [lia | reflexivity |].
    unfold zero. cbn [num_compare signed]. f_equal.
    apply Z.compare_lt_iff.
    assert (0 < 2 ^ (e - Z.min e emin)) by (apply Z.pow_pos_nonneg; lia). nia.
  - destruct (Z.ltb_spec w 0) as [|_]; [lia|].
    destruct (round_ratio_integer false (Z.abs w)) as [->|(m & e & -> & Hm)];
      [lia | reflexivity |].
    unfold zero. cbn [num_compare signed]. f_equal.
    apply Z.compare_gt_iff.
    assert (0 < 2 ^ (e - Z.min e emin)) by (apply Z.pow_pos_nonneg; lia). nia.
Qed.

(** ** The model on known values *)

(** The coercions on some literals, as any engine evaluates them. *)
Example StringToNumber_values :
  StringToNumber "1024" = num_of_Z 1024
  /\ StringToNumber "  768 " = num_of_Z 768
  /\ StringToNumber "" = zero
  /\ StringToNumber "abc" = NaN
  /\ StringToNumber "12px" = NaN
  /\ StringToNumber "1,2" = NaN
  /\ StringToNumber "0x10" = num_of_Z 16
  /\ StringToNumber "-0x10" = NaN
  /\ StringToNumber "1e3" = num_of_Z 1000
  /\ StringToNumber "-5" = num_of_Z (-5)
  /\ StringToNumber ".5" = Fin false (2 ^ 52) (-53)
  /\ StringToNumber "0.1" = Fin false 7205759403792794 (-56)
  /\ StringToNumber "1e400" = Inf false
  /\ StringToNumber "-Infinity" = Inf true.
Proof. vm_compute. repeat split. Qed.

Example NumberToString_values :
  NumberToString (num_of_Z 1024) = "1024"
  /\ NumberToString (num_of_Z (-5)) = "-5"
  /\ NumberToString (Fin true 0 emin) = "0"
  /\ NumberToString (StringToNumber "0.1") = "0.1"
  /\ NumberToString (StringToNumber "768.50") = "768.5"
  /\ NumberToString (StringToNumber "0.30000000000000004") = "0.30000000000000004"
  /\ NumberToString (StringToNumber "0.000001") = "0.000001"
  /\ NumberToString (StringToNumber "0.0000001") = "1e-7"
  /\ NumberToString (StringToNumber "123456789012345680000") = "123456789012345680000"
  /\ NumberToString (StringToNumber "1e21") = "1e+21"
  /\ NumberToString (StringToNumber "1.7976931348623157e308") = "1.7976931348623157e+308"
  /\ NumberToString (StringToNumber "5e-324") = "5e-324"
  /\ NumberToString (num_of_Z (2 ^ 53 + 1)) = "9007199254740992".
Proof. vm_compute. repeat split. Qed.

Example ToString_values :
  ToString (VArray [VNumber (num_of_Z 1); VNull; VString "a"; VArray [VUndefined; VBool true]])
  = "1,,a,,true"
  /\ ToNumber (VArray []) = zero
  /\ ToNumber (VArray [VString "5"]) = num_of_Z 5
  /\ ToNumber (VArray [VString "5"; VString "6"]) = NaN.
Proof. vm_compute. repeat split. Qed.

(** The three examples of the documentation. *)
Example documented_classes :
  className (addBreakPoints (VArray [VString "768"; VString "1024"; VString "1100"])
                            (initial 500 "")) = " lt768 lt1024 lt1100"
  /\ className (addBreakPoints (VArray [VString "768"; VString "1024"; VString "1100"])
                               (initial 1024 "")) = " gt768 e1024 lt1100"
  /\ className (addBreakPoints (VArray [VString "768"; VString "1024"; VString "1100"])
                               (initial 1080 "")) = " gt768 gt1024 lt1100".
Proof. vm_compute. repeat split. Qed.

(** ** Integers as numbers *)

(** Below [2^53] an integer is a number exactly. *)
Lemma num_of_Z_small (z : Z) :
  0 < z < 2 ^ 53 ->
  num_of_Z z = Fin false (z * 2 ^ (52 - Z.log2 z)) (Z.log2 z - 52).
Proof.
  intros [Hlo Hhi]. unfold num_of_Z, round_ratio.
  destruct (Z.ltb_spec z 0) as [|_]; [lia|].
  rewrite Z.abs_eq by lia.
  destruct (Z.leb_spec z 0) as [|_]; [lia|].
  change (Z.log2 1) with 0. rewrite Z.sub_0_r, Z.mul_1_l.
  pose proof (Z.log2_nonneg z) as Hd.
  destruct (Z.log2_spec z Hlo) as [Hl Hu].
  assert (Hd52 : Z.log2 z <= 52).
  { apply Z.lt_succ_r. apply Z.log2_lt_pow2; lia. }
  destruct (Z.leb_spec 0 (Z.log2 z)) as [_|]; [|lia].
  destruct (Z.leb_spec (2 ^ Z.log2 z) z) as [_|]; [|lia].
  unfold prec, emin, emax.
  replace (Z.max (Z.log2 z - (53 - 1)) (-1074)) with (Z.log2 z - 52) by lia.
  assert (Hm : z * 2 ^ (52 - Z.log2 z) < 2 ^ 53).
  { replace 53 with (Z.succ (Z.log2 z) + (52 - Z.log2 z)) at 1 by lia.
    rewrite Z.pow_add_r by lia.
    apply Z.mul_lt_mono_pos_r; [apply Z.pow_pos_nonneg; lia | trivial]. }
  destruct (Z.leb_spec 0 (Z.log2 z - 52)) as [He|He].
  - assert (E : Z.log2 z = 52) by lia. rewrite E in *.
    replace (1 * 2 ^ (52 - 52)) with 1 by reflexivity.
    rewrite Z.div_1_r, Z.mod_1_r.
    change (1 <? 2 * 0) with false. change (1 =? 2 * 0) with false.
    cbn [orb andb].
    destruct (Z.eqb_spec z (2 ^ 53)) as [e|_];
      [exfalso; rewrite e in Hhi; now apply Z.lt_irrefl in Hhi|].
    change (971 <? 52 - 52) with false. cbv iota beta.
    f_equal. change (2 ^ (52 - 52)) with 1. lia.
  - replace (- (Z.log2 z - 52)) with (52 - Z.log2 z) by lia.
    rewrite Z.div_1_r, Z.mod_1_r.
    change (1 <? 2 * 0) with false. change (1 =? 2 * 0) with false.
    cbn [orb andb].
    destruct (Z.eqb_spec (z * 2 ^ (52 - Z.log2 z)) (2 ^ 53)) as [e|_];
      [exfalso; rewrite e in Hm; now apply Z.lt_irrefl in Hm|].
    destruct (Z.ltb_spec 971 (Z.log2 z - 52)) as [|_]; [lia|]. reflexivity.
Qed.

(** The order of two widths below [2^53], read as numbers, is their order
    as integers. *)
Lemma num_compare_of_Z (a b : Z) :
  0 <= a < 2 ^ 53 -> 0 <= b < 2 ^ 53 ->
  num_compare (num_of_Z a) (num_of_Z b) = Some (a ?= b).
Proof.
  intros Ha Hb.
  destruct (Z.eq_dec b 0) as [->|Hb0].
  { apply num_compare_of_Z_zero. }
  destruct (Z.eq_dec a 0) as [->|Ha0].
  { rewrite num_compare_antisym. change (num_of_Z 0) with zero.
    rewrite num_compare_of_Z_zero. cbn [option_map]. f_equal. symmetry.
    apply Z.compare_antisym. }
  rewrite !num_of_Z_small by lia. cbn [num_compare signed]. f_equal.
  set (la := Z.log2 a). set (lb := Z.log2 b).
  assert (Hla : 0 <= la <= 52).
  { subst la. split; [apply Z.log2_nonneg|].
    apply Z.lt_succ_r. apply Z.log2_lt_pow2; lia. }
  assert (Hlb : 0 <= lb <= 52).
  { subst lb. split; [apply Z.log2_nonneg|].
    apply Z.lt_succ_r. apply Z.log2_lt_pow2; lia. }
  set (e := Z.min (la - 52) (lb - 52)).
  assert (He : e <= la - 52 /\ e <= lb - 52 /\ e <= 0) by (subst e; lia).
  rewrite <- !Z.mul_assoc, <- !Z.pow_add_r by lia.
  replace (52 - la + (la - 52 - e)) with (- e) by lia.
  replace (52 - lb + (lb - 52 - e)) with (- e) by lia.
  assert (Hpos : 0 < 2 ^ (- e)) by (apply Z.pow_pos_nonneg; lia).
  destruct (Z.compare_spec a b) as [->|H|H].
  - apply Z.compare_refl.
  - apply Z.compare_lt_iff. now apply Z.mul_lt_mono_pos_r.
  - apply Z.compare_gt_iff. now apply Z.mul_lt_mono_pos_r.
Qed.

(** ** More on the second loop *)

Lemma app_same_length (a b x y : string) :
  a ++ x = b ++ y -> String.length a = String.length b -> a = b /\ x = y.
Proof.
  revert b; induction a as [|c a IH]; intros [|d b] H Hl; simpl in *;
    try discriminate.
  - now split.
  - injection H as -> H. injection Hl as Hl.
    destruct (IH b H Hl) as [-> ->]. now split.
Qed.

(** [stripsFirst] leaves no choice: it is the graph of a function. *)
Lemma stripsFirst_functional (t s s1 s2 : string) :
  stripsFirst t s s1 -> stripsFirst t s s2 -> s1 = s2.
Proof.
  intros H1 H2. destruct H1 as [s Hn|pre post Hmin].
  - inversion H2 as [|pre' post' Hmin' E]; subst; [reflexivity|].
    exfalso. apply Hn. now exists pre', post'.
  - remember (pre ++ t ++ post) as s eqn:Es.
    destruct H2 as [s Hn|pre' post' Hmin'].
    + exfalso. apply Hn. now exists pre, post.
    + pose proof (Hmin pre' post' eq_refl) as L1.
      pose proof (Hmin' pre post Es) as L2.
      destruct (app_same_length pre' pre _ _ Es) as [-> E]; [lia|].
      apply app_inv_head_s in E. now subst.
Qed.

Lemma stripsEach_functional (ts : list string) (s s1 s2 : string) :
  stripsEach ts s s1 -> stripsEach ts s s2 -> s1 = s2.
Proof.
  intros H1; revert s2; induction H1 as [s|t ts s a b Ha Hb IH]; intros s2 H2.
  - now inversion H2.
  - inversion H2 as [|? ? ? a' ? Ha' Hb']; subst.
    rewrite (stripsFirst_functional _ _ _ _ Ha' Ha) in Hb'. now apply IH.
Qed.

(** On a tidy class attribute one occurrence is all there is: after the
    second loop none of the classes to remove occurs in the class string. *)
Lemma removal_complete_when_tidy (st : State) (r : string) :
  tidy (breakPoints st) (className st) = true ->
  In r (classesToRemove st) ->
  ~ occurs r (afterRemoval st).
Proof.
  intros Htidy Hr Ho.
  apply tidy_inv in Htidy as (Hsa & _ & Hcount).
  pose proof Hsa as Hsa'. apply standAlone_inv in Hsa' as (Hws & Hal).
  pose proof (classesToRemove_names st r Hr) as Hname.
  assert (Hw : word r).
  { pose proof (names_words _ Hws) as Hall. rewrite Forall_forall in Hall. auto. }
  destruct Hw as [Hw Hne].
  destruct (occurs_token r _ Hw Hne Ho) as (w & Hin & Hoc).
  rewrite afterRemoval_tokens in Hin by trivial.
  assert (E : w = r).
  { apply Hal; trivial. now apply fold_remove_In in Hin. }
  subst w. revert Hin. apply fold_remove_gone; auto.
Qed.

(** ** More on adding twice *)

Lemma addAll_present (vs : list JsValue) (st : State) :
  (forall v, In v vs -> isNaN (ToNumber v) = false ->
             In (ToString v) (breakPoints st)) ->
  addAll vs st = st.
Proof.
  induction vs as [|v vs IH]; intros H; [reflexivity|].
  change (addAll (v :: vs) st) with (addAll vs (addUniqueBreakPoint v st)).
  assert (E : addUniqueBreakPoint v st = st).
  { destruct (isNaN (ToNumber v)) eqn:Hn.
    - now apply addUnique_NaN.
    - apply addUnique_present. apply H; [now left | trivial]. }
  rewrite E. apply IH. intros u Hu. apply H. now right.
Qed.

Lemma addAll_In (vs : list JsValue) (st : State) (v : JsValue) :
  In v vs -> isNaN (ToNumber v) = false ->
  In (ToString v) (breakPoints (addAll vs st)).
Proof.
  revert st; induction vs as [|u vs IH]; intros st Hv Hn; [contradiction|].
  change (addAll (u :: vs) st) with (addAll vs (addUniqueBreakPoint u st)).
  destruct Hv as [->|Hv]; [|now apply IH].
  destruct (addAll_extends vs (addUniqueBreakPoint v st)) as [ext E].
  rewrite E. apply in_or_app; left. now apply addUnique_In.
Qed.

(** For any argument at all, an array too, the second of two equal calls
    leaves the array of breakpoints as the first one left it. *)
Lemma addBreakPoints_twice (bp : JsValue) (st : State) :
  breakPoints (addBreakPoints bp (addBreakPoints bp st))
  = breakPoints (addBreakPoints bp st).
Proof.
  rewrite (addBreakPoints_addAll bp (addBreakPoints bp st)), breakPoints_updateClasses.
  rewrite addAll_present; [reflexivity|].
  intros v Hv Hn. rewrite addBreakPoints_addAll, breakPoints_updateClasses.
  now apply addAll_In.
Qed.

(** ** Decimal strings of integers *)

Ltac eval_digit :=
  match goal with
  | |- context [digit_val 10 ?c] =>
      let v := eval vm_compute in (digit_val 10 c) in
      change (digit_val 10 c) with v
  end.

Lemma digits_val_of_uint_acc (d : uint) (acc : positive) :
  digits_val 10 (Z.pos acc) (NilEmpty.string_of_uint d)
  = Some (Z.pos (Pos.of_uint_acc d acc)).
Proof.
  revert acc; induction d as [|d IH|d IH|d IH|d IH|d IH|d IH|d IH|d IH|d IH|d IH];
    intros acc; cbn [NilEmpty.string_of_uint digits_val Pos.of_uint_acc].
  1: reflexivity.
  all: eval_digit; cbv iota beta;
    match goal with
    | |- digits_val 10 ?a _ = Some (Z.pos (Pos.of_uint_acc _ ?b)) =>
        replace a with (Z.pos b) by lia; apply IH
    end.
Qed.

Lemma digits_val_of_uint (d : uint) :
  digits_val 10 0 (NilEmpty.string_of_uint d) = Some (Z.of_N (Pos.of_uint d)).
Proof.
  induction d as [|d IH|d IH|d IH|d IH|d IH|d IH|d IH|d IH|d IH|d IH];
    cbn [NilEmpty.string_of_uint digits_val Pos.of_uint].
  1: reflexivity.
  all: eval_digit; cbv iota beta.
  1: exact IH.
  all: apply digits_val_of_uint_acc.
Qed.

Lemma string_of_nonneg_eq (z : Z) :
  string_of_nonneg z = NilEmpty.string_of_uint (N.to_uint (Z.to_N z)).
Proof.
  unfold string_of_nonneg, NilZero.string_of_uint.
  destruct (Z.to_N z) as [|p]; [reflexivity|]. simpl.
  pose proof (DecimalPos.Unsigned.to_uint_nonnil p) as H.
  now destruct (Pos.to_uint p).
Qed.

Lemma digits_val_string_of_nonneg (z : Z) :
  0 <= z -> digits_val 10 0 (string_of_nonneg z) = Some z.
Proof.
  intros Hz. rewrite string_of_nonneg_eq, digits_val_of_uint.
  change (Pos.of_uint (N.to_uint (Z.to_N z))) with (N.of_uint (N.to_uint (Z.to_N z))).
  now rewrite DecimalN.Unsigned.of_to, Z2N.id.
Qed.

Lemma all_digits_of_uint (d : uint) : all_digits (NilEmpty.string_of_uint d) = true.
Proof. induction d; simpl; trivial. Qed.

Lemma string_of_nonneg_nonempty (z : Z) : string_of_nonneg z <> "".
Proof.
  unfold string_of_nonneg, NilZero.string_of_uint.
  destruct (Z.to_N z) as [|p]; [discriminate|]. simpl.
  pose proof (DecimalPos.Unsigned.to_uint_nonnil p) as H.
  destruct (Pos.to_uint p); try discriminate; contradiction.
Qed.

Lemma digit_not_ws (c : ascii) (v : Z) : digit_val 10 c = Some v -> is_ws c = false.
Proof.
  destruct c as [[|] [|] [|] [|] [|] [|] [|] [|]]; vm_compute; congruence.
Qed.

Lemma all_digits_trim_right (s : string) : all_digits s = true -> trim_right s = s.
Proof.
  induction s as [|c s IH]; intros H; [reflexivity|].
  cbn [all_digits] in H. destruct (digit_val 10 c) as [v|] eqn:E; [|discriminate].
  cbn [trim_right]. rewrite (digit_not_ws c v E), (IH H). reflexivity.
Qed.

Lemma all_digits_trim_left (s : string) : all_digits s = true -> trim_left s = s.
Proof.
  destruct s as [|c s]; intros H; [reflexivity|].
  cbn [all_digits] in H. destruct (digit_val 10 c) as [v|] eqn:E; [|discriminate].
  cbn [trim_left]. now rewrite (digit_not_ws c v E).
Qed.

Lemma all_digits_span (s : string) : all_digits s = true -> span_digits s = (s, "").
Proof.
  induction s as [|c s IH]; intros H; [reflexivity|].
  cbn [all_digits] in H. cbn [span_digits].
  destruct (digit_val 10 c) as [v|]; [|discriminate]. now rewrite (IH H).
Qed.

(** A string of digits is read as an unsigned decimal literal. *)
Lemma all_digits_dispatch (c : ascii) (s : string) :
  all_digits (String c s) = true ->
  match String c s with
  | String "0" (String "x" r) | String "0" (String "X" r) => of_integer_literal 16 r
  | String "0" (String "o" r) | String "0" (String "O" r) => of_integer_literal 8 r
  | String "0" (String "b" r) | String "0" (String "B" r) => of_integer_literal 2 r
  | String "+" r => unsigned_decimal false r
  | String "-" r => unsigned_decimal true r
  | t => unsigned_decimal false t
  end = unsigned_decimal false (String c s).
Proof.
  intros H. cbn [all_digits] in H.
  destruct (digit_val 10 c) as [v|] eqn:E; [|discriminate].
  destruct s as [|c2 s].
  - destruct c as [[|] [|] [|] [|] [|] [|] [|] [|]];
      try reflexivity; vm_compute in E; discriminate.
  - cbn [all_digits] in H.
    destruct (digit_val 10 c2) as [v2|] eqn:E2; [|discriminate].
    destruct c as [[|] [|] [|] [|] [|] [|] [|] [|]];
      try reflexivity; try (vm_compute in E; discriminate).
    destruct c2 as [[|] [|] [|] [|] [|] [|] [|] [|]];
      try reflexivity; vm_compute in E2; discriminate.
Qed.

Lemma StringToNumber_digits (s : string) (z : Z) :
  all_digits s = true -> s <> "" -> digits_val 10 0 s = Some z ->
  StringToNumber s = round_ratio false z 1.
Proof.
  intros Hd Hne Hz. unfold StringToNumber.
  rewrite all_digits_trim_left, all_digits_trim_right by trivial.
  destruct s as [|c s]; [contradiction|].
  rewrite (all_digits_dispatch c s Hd). unfold unsigned_decimal.
  destruct (String.eqb_spec (String c s) "Infinity") as [E|_].
  { rewrite E in Hd. discriminate. }
  rewrite (all_digits_span _ Hd), app_nil_r_s, Hz.
  cbn [exponent_part String.length Z.of_nat]. unfold round_decimal.
  cbn [Z.sub Z.opp Z.add Z.leb Z.compare]. now rewrite Z.pow_0_r, Z.mul_1_r.
Qed.

(** The decimal string of an integer that is not negative coerces to that
    integer. *)
Lemma StringToNumber_string_of_nonneg (z : Z) :
  0 <= z -> StringToNumber (string_of_nonneg z) = num_of_Z z.
Proof.
  intros Hz. rewrite (StringToNumber_digits _ z).
  - unfold num_of_Z. destruct (Z.ltb_spec z 0); [lia|]. now rewrite Z.abs_eq.
  - rewrite string_of_nonneg_eq. apply all_digits_of_uint.
  - apply string_of_nonneg_nonempty.
  - now apply digits_val_string_of_nonneg.
Qed.

(** For a breakpoint and a width that are integers below [2^53] the prefix
    follows the order of the integers. *)
Lemma activePrefix_integers (width b : Z) :
  0 <= width < 2 ^ 53 -> 0 <= b < 2 ^ 53 ->
  activePrefix width (string_of_nonneg b) =
  match width ?= b with
  | Gt => PREFIXES.GREATER_THAN
  | Lt => PREFIXES.LESS_THAN
  | Eq => PREFIXES.EQUAL
  end.
Proof.
  intros Hw Hb. unfold activePrefix.
  rewrite StringToNumber_string_of_nonneg by lia.
  now rewrite num_compare_of_Z.
Qed.


(** The values of a call that coerce to NaN count for nothing. *)
Lemma addAll_app (l1 l2 : list JsValue) (st : State) :
  addAll (l1 ++ l2) st = addAll l2 (addAll l1 st).
Proof. unfold addAll. apply fold_left_app. Qed.

Lemma addAll_without_NaN (vs : list JsValue) (st : State) :
  addAll vs st = addAll (filter (fun v => negb (isNaN (ToNumber v))) vs) st.
Proof.
  revert st; induction vs as [|v vs IH]; intros st; [reflexivity|].
  cbn [filter]. destruct (isNaN (ToNumber v)) eqn:Hn; cbn [negb].
  - change (addAll (v :: vs) st) with (addAll vs (addUniqueBreakPoint v st)).
    rewrite (addUnique_NaN _ _ Hn). apply IH.
  - change (addAll (v :: vs) st) with (addAll vs (addUniqueBreakPoint v st)).
    rewrite IH. reflexivity.
Qed.

Lemma addAll_all_NaN (vs : list JsValue) (st : State) :
  forallb (fun v => isNaN (ToNumber v)) vs = true -> addAll vs st = st.
Proof.
  induction vs as [|v vs IH]; intros H; [reflexivity|].
  cbn [forallb] in H. apply andb_true_iff in H as [Hv Hvs].
  change (addAll (v :: vs) st) with (addAll vs (addUniqueBreakPoint v st)).
  rewrite (addUnique_NaN _ _ Hv). now apply IH.
Qed.

Lemma clientWidth_addUnique (v : JsValue) (st : State) :
  clientWidth (addUniqueBreakPoint v st) = clientWidth st.
Proof.
  unfold addUniqueBreakPoint.
  now destruct (negb (isNaN (ToNumber v)) && negb (hasBreakPoint v st)).
Qed.

Lemma clientWidth_addAll (vs : list JsValue) (st : State) :
  clientWidth (addAll vs st) = clientWidth st.
Proof.
  revert st; induction vs as [|v vs IH]; intros st; [reflexivity|].
  change (addAll (v :: vs) st) with (addAll vs (addUniqueBreakPoint v st)).
  now rewrite IH, clientWidth_addUnique.
Qed.

Lemma clientWidth_addBreakPoints (bp : JsValue) (st : State) :
  clientWidth (addBreakPoints bp st) = clientWidth st.
Proof.
  rewrite addBreakPoints_addAll. cbn [updateClasses clientWidth].
  apply clientWidth_addAll.
Qed.

Lemma num_ltb_not_NaN (x y : JsNum) : num_ltb x y = true -> isNaN x = false.
Proof. unfold num_ltb. now destruct x. Qed.

(** * The statements of the specification

    The statements C1 to C10, each with its theorem; where the theorem has
    a hypothesis an instance of it follows, and where the statement fails
    as it is written, the input on which it fails. *)

(** C1, as amended: on a tidy class attribute (no breakpoint with white
    space in it, the class names of the breakpoints only as whole tokens,
    each at most once, and no class name inside another one),
    [updateClasses] leaves for every breakpoint exactly one of its three
    class names among the tokens, the one of the prefix picked by the order
    of the width and the number of the breakpoint, and that one once; the
    class attribute is tidy again. *)
Theorem one_class_per_breakpoint (st : State) (bp p : string) :
  tidy (breakPoints st) (className st) = true ->
  In bp (breakPoints st) ->
  In p prefixes ->
  let st' := updateClasses st in
  (In (p ++ bp) (tokens (className st')) <-> p = activePrefix (clientWidth st) bp)
  /\ (count_occ string_dec (tokens (className st')) (p ++ bp) <= 1)%nat
  /\ tidy (breakPoints st') (className st') = true.
Proof.
  intros Htidy Hbp Hp st'. subst st'.
  pose proof (updateClasses_tokens st Htidy) as Htok.
  apply tidy_inv in Htidy as (Hsa & Hnames & Hcount).
  pose proof Hsa as Hsa'. apply standAlone_inv in Hsa' as (Hws & Hal).
  assert (Hle : forall t, In t (allClassNames (breakPoints st)) ->
                  (count_occ string_dec (tokens (className (updateClasses st))) t <= 1)%nat).
  { intros t Ht. rewrite Htok. apply fold_add_count.
    etransitivity; [apply fold_remove_count_le | now apply Hcount]. }
  assert (Hname : In (p ++ bp) (allClassNames (breakPoints st))).
  { apply allClassNames_In. now exists bp, p. }
  split; [|split].
  - rewrite Htok. split.
    + intros Hin. destruct (string_dec p (activePrefix (clientWidth st) bp)) as [|Hne];
        [trivial | exfalso].
      apply fold_add_In in Hin as [Hin|Hin].
      * revert Hin. apply fold_remove_gone; [|now apply Hcount].
        apply classesToRemove_In. now exists bp, p.
      * apply classesToAdd_In in Hin as (bp' & Hbp' & E).
        destruct (name_inj _ _ _ _ Hp (activePrefix_In _ _) E) as [E1 E2].
        subst bp'. contradiction.
    + intros ->. apply fold_add_has. apply classesToAdd_In. now exists bp.
  - now apply Hle.
  - apply tidy_inv. cbn [updateClasses breakPoints]. repeat split; trivial.
    apply standAlone_inv. split; trivial.
    intros tok t Htk Ht. fold (className (updateClasses st)) in Htk.
    rewrite Htok in Htk. apply fold_add_In in Htk as [Htk|Htk].
    + apply fold_remove_In in Htk. now apply Hal.
    + apply classesToAdd_names in Htk. now apply Hnames.
Qed.

Lemma one_class_per_breakpoint_witness :
  let st := mkState ["768"; "1024"; "1100"] 1024 "no-js lt768 lt1024 lt1100" in
  tidy (breakPoints st) (className st) = true
  /\ In "1024" (breakPoints st)
  /\ In "e" prefixes
  /\ (In ("e" ++ "1024") (tokens (className (updateClasses st)))
      <-> "e" = activePrefix (clientWidth st) "1024")
  /\ (count_occ string_dec (tokens (className (updateClasses st))) ("e" ++ "1024") <= 1)%nat
  /\ tidy (breakPoints (updateClasses st)) (className (updateClasses st)) = true.
Proof.
  cbv zeta.
  split; [vm_compute; reflexivity|].
  split; [simpl; tauto|].
  split; [simpl; tauto|].
  apply (one_class_per_breakpoint
           (mkState ["768"; "1024"; "1100"] 1024 "no-js lt768 lt1024 lt1100")
           "1024" "e").
  - vm_compute; reflexivity.
  - simpl; tauto.
  - simpl; tauto.
Defined.

(** C1 as stated fails.  With the breakpoint 5 and the class attribute
    [lt5 lt5] at width 10, both [lt5] and [gt5] are classes afterwards.
    With the breakpoints 10 and 100 registered at width 50 and the window
    then made 5 wide, none of lt10, e10, gt10 is a class afterwards. *)
Lemma not_one_class_per_breakpoint :
  className (updateClasses (mkState ["5"] 10 "lt5 lt5")) = " lt5 gt5"
  /\ activePrefix 10 "5" = "gt"
  /\ In "lt5" (tokens (className (updateClasses (mkState ["5"] 10 "lt5 lt5"))))
  /\ className (run [CallAddBreakPoints (VArray [VString "10"; VString "100"]); Resize 5]
                    (initial 50 ""))
     = " lt100"
  /\ activePrefix 5 "10" = "lt"
  /\ ~ In "lt10"
        (tokens (className
                   (run [CallAddBreakPoints (VArray [VString "10"; VString "100"]); Resize 5]
                        (initial 50 "")))).
Proof.
  split; [vm_compute; reflexivity|].
  split; [vm_compute; reflexivity|].
  split; [vm_compute; tauto|].
  split; [vm_compute; reflexivity|].
  split; [vm_compute; reflexivity|].
  vm_compute. intros [H|[]]. discriminate.
Qed.

(** C2, as amended: when no breakpoint has white space in it and the class
    names of the breakpoints occur in the class attribute only as whole
    tokens, [updateClasses] keeps the other tokens: the same ones, in the
    same order. *)
Theorem unrelated_tokens_preserved (st : State) :
  standAlone (breakPoints st) (className st) = true ->
  filter (unrelated (breakPoints st)) (tokens (className (updateClasses st)))
  = filter (unrelated (breakPoints st)) (tokens (className st)).
Proof.
  intros H. cbn [updateClasses className].
  rewrite tokens_replace_ws_runs. unfold afterAddition.
  assert (Hws : forallb noWs (breakPoints st) = true).
  { unfold standAlone in H. now apply andb_true_iff in H as [Hws _]. }
  destruct (addClasses_tokens_incl (classesToAdd st) (afterRemoval st))
    as (A' & -> & Hi).
  { apply (words_incl (allClassNames (breakPoints st))).
    - apply classesToAdd_names.
    - now apply names_words. }
  rewrite filter_app, (filter_none _ A'), app_nil_r.
  - rewrite afterRemoval_tokens by trivial. apply fold_remove_filter.
    intros r Hr. unfold unrelated. apply negb_false_iff, isClassName_In.
    now apply classesToRemove_names.
  - intros x Hx. unfold unrelated. apply negb_false_iff, isClassName_In.
    apply classesToAdd_names. now apply Hi.
Qed.

Lemma unrelated_tokens_preserved_witness :
  standAlone ["768"; "1024"; "1100"] "no-js lt768 lt1024   lt1100 wide" = true
  /\ filter (unrelated ["768"; "1024"; "1100"])
            (tokens (className (updateClasses
                       (mkState ["768"; "1024"; "1100"] 1024
                                "no-js lt768 lt1024   lt1100 wide"))))
     = filter (unrelated ["768"; "1024"; "1100"])
              (tokens "no-js lt768 lt1024   lt1100 wide").
Proof.
  split; [vm_compute; reflexivity|].
  apply (unrelated_tokens_preserved
           (mkState ["768"; "1024"; "1100"] 1024 "no-js lt768 lt1024   lt1100 wide")).
  vm_compute; reflexivity.
Defined.

(** C2 as stated fails: the class [page768] of the host page holds the
    string [e768], which is removed at width 1024. *)
Lemma unrelated_token_cut :
  tokens (className (mkState ["768"] 1024 "page768")) = ["page768"]
  /\ unrelated ["768"] "page768" = true
  /\ classesToRemove (mkState ["768"] 1024 "page768") = ["lt768"; "e768"]
  /\ className (updateClasses (mkState ["768"] 1024 "page768")) = "pag gt768"
  /\ filter (unrelated ["768"])
            (tokens (className (updateClasses (mkState ["768"] 1024 "page768"))))
     <> filter (unrelated ["768"]) (tokens (className (mkState ["768"] 1024 "page768"))).
Proof.
  split; [vm_compute; reflexivity|].
  split; [vm_compute; reflexivity|].
  split; [vm_compute; reflexivity|].
  split; [vm_compute; reflexivity|].
  vm_compute. discriminate.
Qed.

(** C3, as amended: the second loop takes the classes to remove in turn and
    strips, for each, the leftmost occurrence of that string from the class
    string as it then is; the string is left alone when there is none.
    Occurrences further right stay. *)
Theorem removal_strips_leftmost (st : State) :
  stripsEach (classesToRemove st) (className st) (afterRemoval st).
Proof. apply removeClasses_stripsEach. Qed.

(** C3 as stated fails: with the breakpoints 10 and 100 registered at width
    5, the class string is [" lt10 lt100"]; at width 50 [lt10] is to be
    removed, and after the second loop it still occurs, at position 2. *)
Lemma removed_class_still_occurs :
  className (addBreakPoints (VArray [VString "10"; VString "100"]) (initial 5 ""))
  = " lt10 lt100"
  /\ classesToRemove (mkState ["10"; "100"] 50 " lt10 lt100")
     = ["lt10"; "e10"; "gt100"; "e100"]
  /\ afterRemoval (mkState ["10"; "100"] 50 " lt10 lt100") = "  lt100"
  /\ indexOf (afterRemoval (mkState ["10"; "100"] 50 " lt10 lt100")) "lt10" = 2
  /\ occurs "lt10" (afterRemoval (mkState ["10"; "100"] 50 " lt10 lt100")).
Proof.
  split; [vm_compute; reflexivity|].
  split; [vm_compute; reflexivity|].
  split; [vm_compute; reflexivity|].
  split; [vm_compute; reflexivity|].
  apply occursb_true. vm_compute; reflexivity.
Qed.

(** C4, as amended: a value whose numeric coercion is NaN is dropped,
    whatever the other values of the call.  A string or a number that
    coerces to NaN leaves of the call only its [updateClasses]; an element
    of an array that coerces to NaN can be struck from the array, beside
    elements that are registered, and so can all such elements; a call all
    of whose values (the argument itself when it is a string or a number,
    its elements when it is an array, none otherwise) coerce to NaN leaves
    the array of breakpoints as it was; an entry that is new after a call
    is the string of a value of the call that does not coerce to NaN.  The
    functions are total, no error is raised.  [Infinity] and [-Infinity]
    are no finite numbers and no NaN: they are registered. *)
Theorem addBreakPoints_ignores_NaN (st : State) :
  (forall bp : JsValue,
     scalar bp = true -> isNaN (ToNumber bp) = true ->
     addBreakPoints bp st = updateClasses st)
  /\ (forall (l1 l2 : list JsValue) (v : JsValue),
        isNaN (ToNumber v) = true ->
        addBreakPoints (VArray (l1 ++ v :: l2)) st
        = addBreakPoints (VArray (l1 ++ l2)) st)
  /\ (forall l : list JsValue,
        addBreakPoints (VArray l) st
        = addBreakPoints (VArray (filter (fun v => negb (isNaN (ToNumber v))) l)) st)
  /\ (forall bp : JsValue,
        forallb (fun v => isNaN (ToNumber v)) (valuesOf bp) = true ->
        breakPoints (addBreakPoints bp st) = breakPoints st)
  /\ (forall (bp : JsValue) (s : string),
        In s (breakPoints (addBreakPoints bp st)) -> ~ In s (breakPoints st) ->
        exists v : JsValue,
          In v (valuesOf bp) /\ isNaN (ToNumber v) = false /\ ToString v = s)
  /\ (forall neg : bool,
        isFinite (ToNumber (VNumber (Inf neg))) = false
        /\ In (if neg then "-Infinity" else "Infinity")
              (breakPoints (addBreakPoints (VNumber (Inf neg)) st))).
Proof.
  split; [|split; [|split; [|split; [|split]]]].
  - intros bp Hs Hn. rewrite addBreakPoints_addAll, (valuesOf_scalar _ Hs).
    cbn [addAll fold_left]. now rewrite (addUnique_NaN _ _ Hn).
  - intros l1 l2 v Hn. rewrite !addBreakPoints_addAll.
    change (valuesOf (VArray (l1 ++ v :: l2))) with (l1 ++ v :: l2)%list.
    change (valuesOf (VArray (l1 ++ l2))) with (l1 ++ l2)%list.
    rewrite !addAll_app.
    change (addAll (v :: l2) (addAll l1 st))
      with (addAll l2 (addUniqueBreakPoint v (addAll l1 st))).
    now rewrite (addUnique_NaN _ _ Hn).
  - intros l. rewrite !addBreakPoints_addAll.
    change (valuesOf (VArray l)) with l.
    change (valuesOf (VArray (filter (fun v => negb (isNaN (ToNumber v))) l)))
      with (filter (fun v => negb (isNaN (ToNumber v))) l).
    now rewrite addAll_without_NaN.
  - intros bp H. rewrite addBreakPoints_addAll, breakPoints_updateClasses.
    now rewrite addAll_all_NaN.
  - intros bp s H Hf. apply addBreakPoints_In_iff in H as [H|H]; [contradiction|exact H].
  - intros neg. split; [reflexivity|].
    apply addBreakPoints_In_iff. right. exists (VNumber (Inf neg)).
    split; [now left|]. split; [reflexivity|]. now destruct neg.
Qed.

Lemma addBreakPoints_ignores_NaN_witness :
  isNaN (ToNumber (VString "abc")) = true
  /\ addBreakPoints (VArray [VString "1024"; VString "abc"; VString "1100"])
                    (mkState ["768"] 1024 " gt768")
     = addBreakPoints (VArray [VString "1024"; VString "1100"])
                      (mkState ["768"] 1024 " gt768")
  /\ breakPoints (addBreakPoints (VArray [VString "1024"; VString "abc"; VString "1100"])
                                 (mkState ["768"] 1024 " gt768"))
     = ["768"; "1024"; "1100"]
  /\ breakPoints (addBreakPoints (VArray [VString "abc"; VUndefined; VObject])
                                 (mkState ["768"] 1024 " gt768")) = ["768"].
Proof.
  assert (Hn : isNaN (ToNumber (VString "abc")) = true) by (vm_compute; reflexivity).
  pose proof (addBreakPoints_ignores_NaN (mkState ["768"] 1024 " gt768"))
    as (_ & H2 & _ & H4 & _).
  split; [exact Hn|]. split; [|split].
  - exact (H2 [VString "1024"] [VString "1100"] (VString "abc") Hn).
  - vm_compute; reflexivity.
  - apply (H4 (VArray [VString "abc"; VUndefined; VObject])).
    vm_compute; reflexivity.
Defined.

(** C4 as stated fails: [Infinity] is not a finite number, and it is
    stored. *)
Lemma infinity_is_stored :
  isFinite (ToNumber (VNumber (Inf false))) = false
  /\ breakPoints (initial 1024 "") = []
  /\ breakPoints (addBreakPoints (VNumber (Inf false)) (initial 1024 "")) = ["Infinity"]
  /\ breakPoints (addBreakPoints (VNumber (Inf false)) (initial 1024 ""))
     <> breakPoints (initial 1024 "").
Proof.
  split; [reflexivity|]. split; [reflexivity|].
  split; [vm_compute; reflexivity|].
  vm_compute. discriminate.
Qed.

(** C5: the class added for a breakpoint follows the order of two numbers,
    the width and the number the string of the breakpoint coerces to:
    [gt] when the width is greater, [lt] when it is less, [e] when they are
    equal.  For a breakpoint that is the decimal string of an integer this
    is the order of the integers.  With the strings 768, 1024 and 1100 and
    the width 1024 the classes are gt768, e1024 and lt1100, although as
    strings 1024 comes before 768. *)
Theorem relation_is_numeric (st : State) (bp : string) :
  In bp (breakPoints st) ->
  let c := num_compare (num_of_Z (clientWidth st)) (StringToNumber bp) in
  (c = Some Gt -> In ("gt" ++ bp) (classesToAdd st))
  /\ (c = Some Lt -> In ("lt" ++ bp) (classesToAdd st))
  /\ (c = Some Eq -> In ("e" ++ bp) (classesToAdd st))
  /\ (forall b : Z,
        0 <= clientWidth st < 2 ^ 53 -> 0 <= b < 2 ^ 53 ->
        bp = string_of_nonneg b ->
        c = Some (clientWidth st ?= b))
  /\ (forall classes : string,
        classesToAdd (mkState ["768"; "1024"; "1100"] 1024 classes)
        = ["gt768"; "e1024"; "lt1100"])
  /\ className (updateClasses (mkState ["768"; "1024"; "1100"] 1024 ""))
     = " gt768 e1024 lt1100"
  /\ lessThan (VString "1024") (VString "768") = true.
Proof.
  intros Hbp c. subst c.
  assert (H : In (activePrefix (clientWidth st) bp ++ bp) (classesToAdd st)).
  { apply classesToAdd_In. now exists bp. }
  unfold activePrefix in H.
  split; [intros E; rewrite E in H; exact H|].
  split; [intros E; rewrite E in H; exact H|].
  split; [intros E; rewrite E in H; exact H|].
  split.
  { intros b Hw Hb ->. rewrite StringToNumber_string_of_nonneg by lia.
    now apply num_compare_of_Z. }
  split; [intros classes; vm_compute; reflexivity|].
  split; vm_compute; reflexivity.
Qed.

Lemma relation_is_numeric_witness :
  In "768" (breakPoints (mkState ["768"; "1024"; "1100"] 1080 "no-js"))
  /\ In "gt768" (classesToAdd (mkState ["768"; "1024"; "1100"] 1080 "no-js")).
Proof.
  split; [simpl; tauto|].
  pose proof (relation_is_numeric (mkState ["768"; "1024"; "1100"] 1080 "no-js") "768"
                                  (or_introl eq_refl)) as H.
  cbv zeta in H. destruct H as (Hgt & _). apply Hgt. vm_compute; reflexivity.
Defined.

(** C6: whatever was called before, and for every value: the second of two
    calls with the same value leaves the array as the first one left it,
    and the string of the value is not twice in the array.  For a
    breakpoint (a string or a number that coerces to a number) the string
    is there exactly once, and a further call with a string or a number of
    the same canonical string changes nothing either. *)
Theorem addBreakPoints_idempotent
        (width : Z) (classes : string) (calls : list Call) (v : JsValue) :
  let st := run calls (initial width classes) in
  let st1 := addBreakPoints v st in
  let st2 := addBreakPoints v st1 in
  breakPoints st2 = breakPoints st1
  /\ (count_occ string_dec (breakPoints st2) (ToString v) <= 1)%nat
  /\ (scalar v = true -> isNaN (ToNumber v) = false ->
      count_occ string_dec (breakPoints st2) (ToString v) = 1%nat
      /\ forall v2 : JsValue,
           scalar v2 = true -> ToString v2 = ToString v ->
           breakPoints (addBreakPoints v2 st1) = breakPoints st1
           /\ count_occ string_dec (breakPoints (addBreakPoints v2 st1)) (ToString v)
              = 1%nat).
Proof.
  intros st st1 st2. subst st2 st1.
  assert (Hd : NoDup (breakPoints (addBreakPoints v st))).
  { apply (run_NoDup [CallAddBreakPoints v]). apply run_NoDup. constructor. }
  rewrite addBreakPoints_twice.
  split; [reflexivity|]. split; [now apply NoDup_count_occ|].
  intros Hs Hn.
  assert (Hin : In (ToString v) (breakPoints (addBreakPoints v st))).
  { rewrite addBreakPoints_scalar by trivial. now apply addUnique_In. }
  assert (Hone : count_occ string_dec (breakPoints (addBreakPoints v st)) (ToString v)
                 = 1%nat).
  { revert Hin. now apply NoDup_count_occ'. }
  split; [trivial|]. intros v2 Hs2 E.
  assert (Heq : breakPoints (addBreakPoints v2 (addBreakPoints v st))
                = breakPoints (addBreakPoints v st)).
  { rewrite (addBreakPoints_scalar v2) by trivial.
    rewrite addUnique_present; [reflexivity | now rewrite E]. }
  now rewrite Heq.
Qed.

Lemma addBreakPoints_idempotent_witness :
  let st1 := addBreakPoints (VString "1024") (initial 500 "") in
  breakPoints st1 = ["1024"]
  /\ breakPoints (addBreakPoints (VNumber (num_of_Z 1024)) st1) = ["1024"]
  /\ count_occ string_dec (breakPoints (addBreakPoints (VNumber (num_of_Z 1024)) st1))
               "1024" = 1%nat.
Proof.
  pose proof (addBreakPoints_idempotent 500 "" [] (VString "1024")) as H.
  cbv zeta in H. destruct H as (_ & _ & H).
  destruct (H eq_refl eq_refl) as (_ & H2).
  destruct (H2 (VNumber (num_of_Z 1024)) eq_refl) as (E & C).
  { vm_compute; reflexivity. }
  assert (E1 : breakPoints (addBreakPoints (VString "1024") (initial 500 "")) = ["1024"])
    by (vm_compute; reflexivity).
  cbv zeta. split; [exact E1|]. split.
  - change (run [] (initial 500 "")) with (initial 500 "") in E.
    rewrite E. exact E1.
  - exact C.
Defined.

(** C7: a string or a number that coerces to a number is found after it was
    added; [hasBreakPoint] answers whether the string of its argument is in
    the array. *)
Theorem hasBreakPoint_after_add (v : JsValue) (st : State) :
  scalar v = true ->
  isNaN (ToNumber v) = false ->
  hasBreakPoint v (addBreakPoints v st) = true
  /\ (forall (u : JsValue) (s : State),
        hasBreakPoint u s = true <-> In (ToString u) (breakPoints s)).
Proof.
  intros Hs Hn. split.
  - apply hasBreakPoint_In. rewrite addBreakPoints_scalar by trivial.
    now apply addUnique_In.
  - intros u s. apply hasBreakPoint_In.
Qed.

Lemma hasBreakPoint_after_add_witness :
  scalar (VNumber (num_of_Z 768)) = true
  /\ isNaN (ToNumber (VNumber (num_of_Z 768))) = false
  /\ hasBreakPoint (VNumber (num_of_Z 768))
                   (addBreakPoints (VNumber (num_of_Z 768)) (initial 500 "")) = true
  /\ (forall (u : JsValue) (s : State),
        hasBreakPoint u s = true <-> In (ToString u) (breakPoints s)).
Proof.
  split; [reflexivity|]. split; [vm_compute; reflexivity|].
  apply (hasBreakPoint_after_add (VNumber (num_of_Z 768)) (initial 500 "")).
  - reflexivity.
  - vm_compute; reflexivity.
Defined.

(** C8: started empty, the array never holds a string twice, whatever the
    calls; every call keeps it so and leaves the array it found as a prefix
    of the array it leaves. *)
Theorem breakPoints_unique_append_only (width : Z) (classes : string) (calls : list Call) :
  let st := run calls (initial width classes) in
  NoDup (breakPoints st)
  /\ forall c : Call,
       NoDup (breakPoints (call c st))
       /\ exists ext, breakPoints (call c st) = (breakPoints st ++ ext)%list.
Proof.
  intros st.
  assert (H : NoDup (breakPoints st)) by (apply run_NoDup; constructor).
  split; trivial. intros c. split.
  - now apply call_NoDup.
  - apply call_extends.
Qed.

(** C9, as amended: the entries of the array are the strings [''+v] of the
    values [v] handed to [addBreakPoints] (the argument of a call when it
    is a string or a number, the elements when it is an array) whose
    numeric coercion [+v] is not NaN: each entry is the string of such a
    value of one of the calls made, and each such value has its string in
    the array.  The sign is not looked at: a string handed in whose number
    is below zero is an entry. *)
Theorem breakPoints_accepted (width : Z) (classes : string) (calls : list Call) :
  (forall s : string,
     In s (breakPoints (run calls (initial width classes))) <->
     exists bp v : JsValue,
       In (CallAddBreakPoints bp) calls
       /\ In v (valuesOf bp) /\ isNaN (ToNumber v) = false /\ ToString v = s)
  /\ (forall s : string,
        In (CallAddBreakPoints (VString s)) calls ->
        num_ltb (StringToNumber s) zero = true ->
        In s (breakPoints (run calls (initial width classes)))
        /\ ~ Forall nonNegative (breakPoints (run calls (initial width classes)))).
Proof.
  assert (E : forall s : string,
     In s (breakPoints (run calls (initial width classes))) <->
     exists bp v : JsValue,
       In (CallAddBreakPoints bp) calls
       /\ In v (valuesOf bp) /\ isNaN (ToNumber v) = false /\ ToString v = s).
  { intros s. rewrite run_In_iff. cbn [initial breakPoints In]. tauto. }
  split; [exact E|].
  intros s Hc Hneg.
  assert (Hin : In s (breakPoints (run calls (initial width classes)))).
  { apply E. exists (VString s), (VString s). split; [exact Hc|].
    split; [now left|]. split; [|reflexivity].
    apply (num_ltb_not_NaN _ _ Hneg). }
  split; [exact Hin|].
  intros Hall. rewrite Forall_forall in Hall. specialize (Hall s Hin).
  unfold nonNegative in Hall. congruence.
Qed.

Lemma breakPoints_accepted_witness :
  num_ltb (StringToNumber "-5") zero = true
  /\ In "-5" (breakPoints
       (run [CallAddBreakPoints (VArray [VString "768"; VString "abc"]);
             Resize 500;
             CallAddBreakPoints (VString "-5")] (initial 1024 "no-js")))
  /\ breakPoints
       (run [CallAddBreakPoints (VArray [VString "768"; VString "abc"]);
             Resize 500;
             CallAddBreakPoints (VString "-5")] (initial 1024 "no-js"))
     = ["768"; "-5"].
Proof.
  assert (Hneg : num_ltb (StringToNumber "-5") zero = true) by (vm_compute; reflexivity).
  split; [exact Hneg|]. split; [|vm_compute; reflexivity].
  pose proof (breakPoints_accepted 1024 "no-js"
    [CallAddBreakPoints (VArray [VString "768"; VString "abc"]);
     Resize 500;
     CallAddBreakPoints (VString "-5")]) as (_ & H).
  apply (H "-5"); [|exact Hneg].
  right; right; left; reflexivity.
Defined.

(** C9 as stated fails: a negative breakpoint is stored. *)
Lemma negative_is_stored :
  breakPoints (run [CallAddBreakPoints (VString "-5")] (initial 1024 "")) = ["-5"]
  /\ num_compare (StringToNumber "-5") zero = Some Lt
  /\ ~ Forall nonNegative
         (breakPoints (run [CallAddBreakPoints (VString "-5")] (initial 1024 ""))).
Proof.
  split; [vm_compute; reflexivity|]. split; [vm_compute; reflexivity|].
  assert (E : breakPoints (run [CallAddBreakPoints (VString "-5")] (initial 1024 ""))
              = ["-5"]) by (vm_compute; reflexivity).
  rewrite E. intros H. apply Forall_inv in H. vm_compute in H. discriminate.
Qed.

(** C10, as amended: the empty string, and any string of white space,
    passes the test of [addUniqueBreakPoint]: it coerces to the number 0 and
    is appended as it is, a string of white space verbatim and not as the
    empty string.  [hasBreakPoint] then finds the string handed in; it finds
    the empty string only when the empty string was handed in, or was an
    entry before.  The first loop of [updateClasses] then derives for the
    string [s] the classes that are a prefix followed by [s]: the one picked
    by the order of the width and 0 is in the list of classes to add, the
    two others in the list of classes to remove; after a first call these
    are the whole lists.  For the empty string they are the bare prefixes
    [lt], [gt] and [e]. *)
Theorem empty_string_is_a_breakpoint (s : string) (st : State) :
  whitespaceOnly s = true ->
  ToNumber (VString s) = zero
  /\ isFinite (ToNumber (VString s)) = true
  /\ (~ In s (breakPoints st) ->
      breakPoints (addBreakPoints (VString s) st) = (breakPoints st ++ [s])%list)
  /\ hasBreakPoint (VString s) (addBreakPoints (VString s) st) = true
  /\ (hasBreakPoint (VString "") (addBreakPoints (VString s) st) = true
      <-> s = "" \/ In "" (breakPoints st))
  /\ (forall p : string, In p prefixes ->
        (In (p ++ s) (classesToAdd (addBreakPoints (VString s) st))
         <-> p = match clientWidth st ?= 0 with
                 | Gt => PREFIXES.GREATER_THAN
                 | Lt => PREFIXES.LESS_THAN
                 | Eq => PREFIXES.EQUAL
                 end)
        /\ (In (p ++ s) (classesToRemove (addBreakPoints (VString s) st))
            <-> p <> match clientWidth st ?= 0 with
                     | Gt => PREFIXES.GREATER_THAN
                     | Lt => PREFIXES.LESS_THAN
                     | Eq => PREFIXES.EQUAL
                     end))
  /\ (breakPoints st = [] ->
      (classesToAdd (addBreakPoints (VString s) st),
       classesToRemove (addBreakPoints (VString s) st))
      = match clientWidth st ?= 0 with
        | Gt => (["gt" ++ s], ["lt" ++ s; "e" ++ s])
        | Lt => (["lt" ++ s], ["gt" ++ s; "e" ++ s])
        | Eq => (["e" ++ s], ["lt" ++ s; "gt" ++ s])
        end)
  /\ forall width : Z,
       classesFor (VNumber (num_of_Z width)) s =
       match width ?= 0 with
       | Gt => ("gt" ++ s, ["lt" ++ s; "e" ++ s])
       | Lt => ("lt" ++ s, ["gt" ++ s; "e" ++ s])
       | Eq => ("e" ++ s, ["lt" ++ s; "gt" ++ s])
       end.
Proof.
  intros Hs.
  assert (Hz : ToNumber (VString s) = zero) by now apply StringToNumber_whitespaceOnly.
  assert (Hz' : StringToNumber s = zero) by exact Hz.
  assert (Hn : isNaN (ToNumber (VString s)) = false) by now rewrite Hz.
  assert (Hin : In s (breakPoints (addBreakPoints (VString s) st))).
  { rewrite addBreakPoints_scalar by reflexivity.
    now apply (addUnique_In (VString s)). }
  assert (Hact : activePrefix (clientWidth st) s
                 = match clientWidth st ?= 0 with
                   | Gt => PREFIXES.GREATER_THAN
                   | Lt => PREFIXES.LESS_THAN
                   | Eq => PREFIXES.EQUAL
                   end).
  { unfold activePrefix. rewrite Hz', num_compare_of_Z_zero.
    now destruct (clientWidth st ?= 0). }
  assert (Hpre : In (activePrefix (clientWidth st) s) prefixes).
  { rewrite Hact. unfold prefixes.
    destruct (clientWidth st ?= 0); cbn [In]; tauto. }
  assert (Hfor : forall width : Z,
       classesFor (VNumber (num_of_Z width)) s =
       match width ?= 0 with
       | Gt => ("gt" ++ s, ["lt" ++ s; "e" ++ s])
       | Lt => ("lt" ++ s, ["gt" ++ s; "e" ++ s])
       | Eq => ("e" ++ s, ["lt" ++ s; "gt" ++ s])
       end).
  { intros width. rewrite classesFor_compare, Hz', num_compare_of_Z_zero.
    destruct (width ?= 0); reflexivity. }
  split; [trivial|]. split; [now rewrite Hz|].
  split; [|split; [|split; [|split; [|split]]]].
  - intros Hf. rewrite addBreakPoints_scalar by reflexivity.
    now apply (addUnique_fresh (VString s)).
  - now apply hasBreakPoint_In.
  - rewrite hasBreakPoint_In. change (ToString (VString "")) with "".
    rewrite addBreakPoints_In_iff. split.
    + intros [H|(v & [<-|[]] & _ & E)]; [now right | left; now rewrite <- E].
    + intros [->|H]; [|now left]. right. exists (VString "").
      split; [now left|]. split; [exact Hn | reflexivity].
  - intros p Hp. rewrite <- Hact. split.
    + rewrite classesToAdd_In, clientWidth_addBreakPoints. split.
      * intros (bp & Hbp & E).
        assert (Hq : In (activePrefix (clientWidth st) bp) prefixes).
        { unfold activePrefix, prefixes.
          destruct (num_compare _ _) as [[| |]|]; cbn [In]; tauto. }
        destruct (name_inj _ _ _ _ Hp Hq E) as [-> <-]. reflexivity.
      * intros ->. now exists s.
    + rewrite classesToRemove_In, clientWidth_addBreakPoints. split.
      * intros (bp & q & Hbp & Hq & Hne & E).
        destruct (name_inj _ _ _ _ Hp Hq E) as [-> <-]. exact Hne.
      * intros Hne. now exists s, p.
  - intros He.
    assert (Hb : breakPoints (addBreakPoints (VString s) st) = [s]).
    { rewrite addBreakPoints_scalar by reflexivity.
      rewrite (addUnique_fresh (VString s)); [now rewrite He | exact Hn |].
      rewrite He. intros []. }
    unfold classesToAdd, classesToRemove. rewrite Hb.
    unfold windowWidth. rewrite clientWidth_addBreakPoints.
    cbn [constructLists]. rewrite Hfor.
    destruct (clientWidth st ?= 0); reflexivity.
  - exact Hfor.
Qed.

Lemma empty_string_is_a_breakpoint_witness :
  whitespaceOnly "" = true
  /\ breakPoints (addBreakPoints (VString "") (initial 1024 "no-js")) = [""]
  /\ (classesToAdd (addBreakPoints (VString "") (initial 1024 "no-js")),
      classesToRemove (addBreakPoints (VString "") (initial 1024 "no-js")))
     = (["gt"], ["lt"; "e"])
  /\ className (addBreakPoints (VString "") (initial 1024 "no-js")) = "no-js gt".
Proof.
  split; [reflexivity|].
  pose proof (empty_string_is_a_breakpoint "" (initial 1024 "no-js") eq_refl)
    as (_ & _ & H & _ & _ & _ & L & _).
  split; [|split; [|vm_compute; reflexivity]].
  - apply H. simpl. tauto.
  - exact (L eq_refl).
Defined.

(** C10 as stated fails for a string of white space that is not empty: it
    is not stored as the empty string.  After [addBreakPoints(' ')] the one
    entry is [' '], [hasBreakPoint('')] is false, and the classes derived
    are the prefixes followed by the space. *)
Lemma whitespace_is_stored_verbatim :
  whitespaceOnly " " = true
  /\ breakPoints (addBreakPoints (VString " ") (initial 1024 "")) = [" "]
  /\ ~ In "" (breakPoints (addBreakPoints (VString " ") (initial 1024 "")))
  /\ hasBreakPoint (VString "") (addBreakPoints (VString " ") (initial 1024 "")) = false
  /\ hasBreakPoint (VString " ") (addBreakPoints (VString " ") (initial 1024 "")) = true
  /\ classesToAdd (addBreakPoints (VString " ") (initial 1024 "")) = ["gt "]
  /\ classesToRemove (addBreakPoints (VString " ") (initial 1024 "")) = ["lt "; "e "].
Proof.
  split; [reflexivity|].
  assert (E : breakPoints (addBreakPoints (VString " ") (initial 1024 "")) = [" "])
    by (vm_compute; reflexivity).
  split; [exact E|]. split.
  - rewrite E. intros [H|[]]. discriminate.
  - split; [vm_compute; reflexivity|]. split; [vm_compute; reflexivity|].
    split; vm_compute; reflexivity.
Qed.

(** * Further properties of the module *)

(** ** Registering breakpoints *)

(** X1: after a call of [addBreakPoints] the breakpoints are those there
    were and the strings of the values of the call that coerce to a number,
    nothing else. *)
Theorem addBreakPoints_members (bp : JsValue) (st : State) (s : string) :
  In s (breakPoints (addBreakPoints bp st)) <->
  In s (breakPoints st)
  \/ exists v : JsValue,
       In v (valuesOf bp) /\ isNaN (ToNumber v) = false /\ ToString v = s.
Proof. apply addBreakPoints_In_iff. Qed.

Lemma addUnique_breakPoints_only (v : JsValue) (st1 st2 : State) :
  breakPoints st1 = breakPoints st2 ->
  breakPoints (addUniqueBreakPoint v st1) = breakPoints (addUniqueBreakPoint v st2).
Proof.
  intros E. rewrite !breakPoints_addUnique.
  unfold hasBreakPoint. now rewrite E.
Qed.

Lemma addBreakPoints_one_by_one (l : list JsValue) (st1 st2 : State) :
  forallb scalar l = true ->
  breakPoints st1 = breakPoints st2 ->
  breakPoints (fold_left (fun s v => addBreakPoints v s) l st1)
  = breakPoints (addAll l st2).
Proof.
  revert st1 st2; induction l as [|v l IH]; intros st1 st2 Hs E; [exact E|].
  cbn [forallb] in Hs. apply andb_true_iff in Hs as [Hv Hl].
  cbn [fold_left].
  change (addAll (v :: l) st2) with (addAll l (addUniqueBreakPoint v st2)).
  apply IH; trivial.
  rewrite addBreakPoints_scalar by trivial. now apply addUnique_breakPoints_only.
Qed.

(** X2: a call with an array of strings and numbers registers what the
    calls with its elements, one after the other, register, in the same
    order. *)
Theorem addBreakPoints_array (l : list JsValue) (st : State) :
  forallb scalar l = true ->
  breakPoints (addBreakPoints (VArray l) st)
  = breakPoints (fold_left (fun s v => addBreakPoints v s) l st).
Proof.
  intros Hs. rewrite addBreakPoints_addAll, breakPoints_updateClasses.
  symmetry. now apply addBreakPoints_one_by_one.
Qed.

Lemma addBreakPoints_array_witness :
  forallb scalar [VString "768"; VNumber (num_of_Z 1024); VString "768"] = true
  /\ breakPoints (addBreakPoints
                    (VArray [VString "768"; VNumber (num_of_Z 1024); VString "768"])
                    (initial 500 ""))
     = breakPoints (fold_left (fun s v => addBreakPoints v s)
                              [VString "768"; VNumber (num_of_Z 1024); VString "768"]
                              (initial 500 "")).
Proof.
  split; [reflexivity|].
  apply (addBreakPoints_array [VString "768"; VNumber (num_of_Z 1024); VString "768"]
                              (initial 500 "")).
  reflexivity.
Defined.

(** ** The first loop *)

Lemma classesFor_snd_length (w : JsValue) (bp : string) :
  List.length (snd (classesFor w bp)) = 2%nat.
Proof.
  unfold classesFor.
  destruct (greaterThan w (VString bp)); [reflexivity|].
  destruct (lessThan w (VString bp)); reflexivity.
Qed.

Lemma flat_map_length_const (f : string -> list string) (n : nat) (l : list string) :
  (forall x, List.length (f x) = n) ->
  List.length (flat_map f l) = (n * List.length l)%nat.
Proof.
  intros H. induction l as [|x l IH]; cbn [flat_map List.length]; [lia|].
  rewrite length_app, H, IH. lia.
Qed.

(** X3: the first loop sorts the three class names of every breakpoint:
    the one of the prefix picked for the width is to be added, the two
    others are to be removed; no class name is in both lists.  One class is
    added and two are removed for each breakpoint. *)
Theorem first_loop_partition (st : State) (bp p : string) :
  In bp (breakPoints st) ->
  In p prefixes ->
  (In (p ++ bp) (classesToAdd st) <-> p = activePrefix (clientWidth st) bp)
  /\ (In (p ++ bp) (classesToRemove st) <-> p <> activePrefix (clientWidth st) bp)
  /\ List.length (classesToAdd st) = List.length (breakPoints st)
  /\ List.length (classesToRemove st) = (2 * List.length (breakPoints st))%nat.
Proof.
  intros Hbp Hp. split; [|split; [|split]].
  - rewrite classesToAdd_In. split.
    + intros (b & Hb & E).
      now destruct (name_inj _ _ _ _ Hp (activePrefix_In _ _) E) as [-> ->].
    + intros ->. now exists bp.
  - rewrite classesToRemove_In. split.
    + intros (b & q & Hb & Hq & Hne & E).
      now destruct (name_inj _ _ _ _ Hp Hq E) as [-> ->].
    + intros Hne. now exists bp, p.
  - rewrite classesToAdd_map. apply length_map.
  - rewrite classesToRemove_flat_map. apply flat_map_length_const.
    intros x. apply classesFor_snd_length.
Qed.

Lemma first_loop_partition_witness :
  In "1024" (breakPoints (mkState ["768"; "1024"; "1100"] 1080 ""))
  /\ In "lt" prefixes
  /\ In ("lt" ++ "1024") (classesToRemove (mkState ["768"; "1024"; "1100"] 1080 "")).
Proof.
  split; [simpl; tauto|]. split; [simpl; tauto|].
  pose proof (first_loop_partition (mkState ["768"; "1024"; "1100"] 1080 "") "1024" "lt")
    as H.
  destruct H as (_ & H & _); [simpl; tauto | simpl; tauto |].
  apply H. vm_compute. discriminate.
Defined.

Lemma num_compare_NaN_r (x : JsNum) : num_compare x NaN = None.
Proof. now destruct x. Qed.

(** X4: the test of [addUniqueBreakPoint] is on the number [+bp], the entry
    is the string [''+bp].  A value that passes the test and whose string
    is no number ([null] or [true] in an array) is registered, and at every
    width its class is the one with the prefix [e]. *)
Theorem entry_that_is_no_number (bp v : JsValue) (st : State) :
  In v (valuesOf bp) ->
  isNaN (ToNumber v) = false ->
  isNaN (StringToNumber (ToString v)) = true ->
  In (ToString v) (breakPoints (addBreakPoints bp st))
  /\ forall width : Z,
       activePrefix width (ToString v) = PREFIXES.EQUAL
       /\ In ("e" ++ ToString v) (classesToAdd (resize width (addBreakPoints bp st))).
Proof.
  intros Hv Hn Hs.
  assert (Hin : In (ToString v) (breakPoints (addBreakPoints bp st))).
  { apply addBreakPoints_In_iff. right. now exists v. }
  split; trivial. intros width.
  assert (Ha : activePrefix width (ToString v) = PREFIXES.EQUAL).
  { unfold activePrefix. destruct (StringToNumber (ToString v)); try discriminate.
    now rewrite num_compare_NaN_r. }
  split; trivial. apply classesToAdd_In. exists (ToString v). split; trivial.
  cbn [resize updateClasses clientWidth]. now rewrite Ha.
Qed.

Lemma entry_that_is_no_number_witness :
  In VNull (valuesOf (VArray [VString "768"; VNull]))
  /\ isNaN (ToNumber VNull) = false
  /\ isNaN (StringToNumber (ToString VNull)) = true
  /\ In "null" (breakPoints (addBreakPoints (VArray [VString "768"; VNull]) (initial 500 "")))
  /\ className (addBreakPoints (VArray [VString "768"; VNull]) (initial 500 ""))
     = " lt768 enull".
Proof.
  split; [simpl; tauto|]. split; [reflexivity|]. split; [reflexivity|].
  split; [|vm_compute; reflexivity].
  pose proof (entry_that_is_no_number (VArray [VString "768"; VNull]) VNull
                                      (initial 500 "") (or_intror (or_introl eq_refl))
                                      eq_refl eq_refl) as (H & _).
  exact H.
Defined.




(** ** White space around a breakpoint *)

Lemma trim_left_app_ws (p s : string) :
  whitespaceOnly p = true -> trim_left (p ++ s) = trim_left s.
Proof.
  induction p as [|c p IH]; intros H; [reflexivity|].
  cbn [whitespaceOnly] in H. apply andb_true_iff in H as [Hc Hp].
  cbn [append trim_left]. rewrite Hc. now apply IH.
Qed.

Lemma trim_right_ws (q : string) : whitespaceOnly q = true -> trim_right q = "".
Proof.
  induction q as [|c q IH]; intros H; [reflexivity|].
  cbn [whitespaceOnly] in H. apply andb_true_iff in H as [Hc Hq].
  cbn [trim_right]. now rewrite (IH Hq), Hc.
Qed.

Lemma trim_right_app_ws (s q : string) :
  whitespaceOnly q = true -> trim_right (s ++ q) = trim_right s.
Proof.
  intros Hq. induction s as [|c s IH].
  - cbn [append]. now rewrite trim_right_ws.
  - cbn [append trim_right]. now rewrite IH.
Qed.

Lemma trim_left_app_r (s q : string) :
  trim_left s <> "" -> trim_left (s ++ q) = trim_left s ++ q.
Proof.
  induction s as [|c s IH]; intros H; [contradiction|].
  cbn [append trim_left] in *. destruct (is_ws c); [now apply IH | reflexivity].
Qed.

Lemma trim_left_all_ws (s : string) : trim_left s = "" -> whitespaceOnly s = true.
Proof.
  induction s as [|c s IH]; intros H; [reflexivity|].
  cbn [trim_left whitespaceOnly] in *. destruct (is_ws c); [now apply IH | discriminate].
Qed.

Lemma whitespaceOnly_app (a b : string) :
  whitespaceOnly (a ++ b) = whitespaceOnly a && whitespaceOnly b.
Proof.
  induction a as [|c a IH]; cbn [append whitespaceOnly]; [reflexivity|].
  now rewrite IH, andb_assoc.
Qed.

Lemma StringToNumber_padded (p s q : string) :
  whitespaceOnly p = true -> whitespaceOnly q = true ->
  StringToNumber (p ++ s ++ q) = StringToNumber s.
Proof.
  intros Hp Hq. unfold StringToNumber. rewrite trim_left_app_ws by trivial.
  destruct (string_dec (trim_left s) "") as [E|Hne].
  - rewrite E. rewrite trim_left_whitespaceOnly; [reflexivity|].
    rewrite whitespaceOnly_app, Hq, andb_true_r. now apply trim_left_all_ws.
  - now rewrite trim_left_app_r, trim_right_app_ws.
Qed.

(** X6: white space before and after a breakpoint string does not change
    the number it coerces to, so the padded string passes the test exactly
    when the bare one does and has the same prefix at every width; but it
    is registered as it is written, as an entry of its own beside the bare
    one. *)
Theorem padded_breakpoint (p s q : string) (st : State) :
  whitespaceOnly p = true -> whitespaceOnly q = true ->
  ToNumber (VString (p ++ s ++ q)) = ToNumber (VString s)
  /\ (forall width : Z, activePrefix width (p ++ s ++ q) = activePrefix width s)
  /\ (isNaN (ToNumber (VString s)) = false ->
      In (p ++ s ++ q) (breakPoints (addBreakPoints (VString (p ++ s ++ q))
                                                    (addBreakPoints (VString s) st)))
      /\ In s (breakPoints (addBreakPoints (VString (p ++ s ++ q))
                                           (addBreakPoints (VString s) st)))).
Proof.
  intros Hp Hq.
  assert (E : StringToNumber (p ++ s ++ q) = StringToNumber s)
    by now apply StringToNumber_padded.
  split; [exact E|]. split.
  - intros width. unfold activePrefix. now rewrite E.
  - intros Hn. split.
    + apply addBreakPoints_In_iff. right. exists (VString (p ++ s ++ q)).
      repeat split; [now left|]. cbn [ToNumber] in *. now rewrite E.
    + apply addBreakPoints_In_iff. left.
      apply addBreakPoints_In_iff. right. exists (VString s).
      repeat split; trivial. now left.
Qed.

Lemma padded_breakpoint_witness :
  whitespaceOnly " " = true
  /\ whitespaceOnly "" = true
  /\ breakPoints (addBreakPoints (VString " 768") (addBreakPoints (VString "768")
                                                                   (initial 1024 "")))
     = ["768"; " 768"]
  /\ activePrefix 1024 (" " ++ "768" ++ "") = activePrefix 1024 "768".
Proof.
  split; [reflexivity|]. split; [reflexivity|].
  split; [vm_compute; reflexivity|].
  pose proof (padded_breakpoint " " "768" "" (initial 1024 "") eq_refl eq_refl)
    as (_ & H & _).
  apply H.
Defined.

(** ** The class attribute after [updateClasses], whatever it was *)

Lemma occurs_trans (t w s : string) : occurs t w -> occurs w s -> occurs t s.
Proof.
  intros (a & b & ->) (c & d & ->). exists (c ++ a), (b ++ d).
  now rewrite !app_assoc_s.
Qed.

Lemma addClasses_occurs_mono (A : list string) (s t : string) :
  occurs t s -> occurs t (addClasses s A).
Proof.
  revert s; induction A as [|a A IH]; intros s H; cbn [addClasses]; [exact H|].
  apply IH. destruct (indexOf s a =? -1); [now apply occurs_app_r | exact H].
Qed.

Lemma addClasses_occurs (A : list string) (s a : string) :
  In a A -> occurs a (addClasses s A).
Proof.
  revert s; induction A as [|x A IH]; intros s H; [contradiction|].
  cbn [addClasses]. destruct H as [->|H]; [|now apply IH].
  apply addClasses_occurs_mono.
  destruct (Z.eqb_spec (indexOf s a) (-1)) as [E|E].
  - apply occurs_app_l. exists " ", "". cbn [append]. now rewrite app_nil_r_s.
  - now apply indexOf_from_found in E.
Qed.

Lemma occurs_replace_ws_runs (t s : string) :
  word t -> occurs t s -> occurs t (replace_ws_runs s).
Proof.
  intros [Ht Hne] Ho.
  destruct (occurs_token t s Ht Hne Ho) as (w & Hw & Htw).
  rewrite <- tokens_replace_ws_runs in Hw.
  apply (occurs_trans t w); [exact Htw | now apply tokens_occurs].
Qed.

Lemma updateClasses_occurs (st : State) (bp : string) :
  In bp (breakPoints st) ->
  noWs bp = true ->
  occurs (activePrefix (clientWidth st) bp ++ bp) (className (updateClasses st)).
Proof.
  intros Hbp Hws. cbn [updateClasses className].
  apply occurs_replace_ws_runs.
  - apply name_word; [apply activePrefix_In | exact Hws].
  - unfold afterAddition. apply addClasses_occurs.
    apply classesToAdd_In. now exists bp.
Qed.

(** X7: when the breakpoint has no white space in it, the class picked for
    it occurs in the class attribute after [updateClasses], whatever the
    class attribute was before. *)
Theorem picked_class_occurs (st : State) (bp : string) :
  In bp (breakPoints st) ->
  noWs bp = true ->
  occurs (activePrefix (clientWidth st) bp ++ bp) (className (updateClasses st)).
Proof. apply updateClasses_occurs. Qed.

Lemma picked_class_occurs_witness :
  In "100" (breakPoints (mkState ["10"; "100"] 50 "x  lt10 page100"))
  /\ noWs "100" = true
  /\ className (updateClasses (mkState ["10"; "100"] 50 "x  lt10 page100"))
     = "x pag0 gt10 lt100"
  /\ occurs (activePrefix 50 "100" ++ "100")
            (className (updateClasses (mkState ["10"; "100"] 50 "x  lt10 page100"))).
Proof.
  split; [simpl; tauto|]. split; [reflexivity|].
  split; [vm_compute; reflexivity|].
  exact (picked_class_occurs (mkState ["10"; "100"] 50 "x  lt10 page100") "100"
                             (or_intror (or_introl eq_refl)) eq_refl).
Defined.

Lemma singleSpaced_fixed (s : string) :
  singleSpaced s = true -> replace_ws_runs s = s.
Proof.
  induction s as [|c s IH]; intros H; [reflexivity|].
  cbn [singleSpaced] in H. apply andb_true_iff in H as [Hc Hs].
  cbn [replace_ws_runs]. rewrite (IH Hs).
  destruct (is_ws c); [|reflexivity].
  apply andb_true_iff in Hc as [Hc Hn]. apply Ascii.eqb_eq in Hc. subst c.
  destruct s as [|c' s']; [reflexivity|].
  apply negb_true_iff in Hn. now rewrite Hn.
Qed.

(** X8: [updateClasses] leaves a class attribute whose white space is single
    spaces; running the regular expression of its last line on the result
    again changes nothing.  The same holds after [addBreakPoints] and after
    a [resize] event, which end with [updateClasses]. *)
Theorem class_attribute_single_spaced (st : State) (bp : JsValue) (width : Z) :
  singleSpaced (className (updateClasses st)) = true
  /\ replace_ws_runs (className (updateClasses st)) = className (updateClasses st)
  /\ singleSpaced (className (addBreakPoints bp st)) = true
  /\ singleSpaced (className (resize width st)) = true.
Proof.
  split; [apply replace_ws_runs_singleSpaced|].
  split; [apply singleSpaced_fixed, replace_ws_runs_singleSpaced|].
  split; apply replace_ws_runs_singleSpaced.
Qed.

(** X9: when the page is loaded the array of breakpoints is empty, and the
    first run of [updateClasses] only collapses the white space of the class
    attribute: its tokens are those of the host page, and nothing is
    registered. *)
Theorem load_keeps_classes (width : Z) (classes : string) :
  let st := beginResizeListener (initial width classes) in
  className st = replace_ws_runs classes
  /\ tokens (className st) = tokens classes
  /\ breakPoints st = []
  /\ forall v : JsValue, hasBreakPoint v st = false.
Proof.
  cbv zeta. split; [reflexivity|]. split; [apply tokens_replace_ws_runs|].
  split; reflexivity.
Qed.

(** ** No class twice *)

Lemma remove_first_NoDup (x : string) (l : list string) :
  NoDup l -> NoDup (remove_first x l).
Proof.
  induction l as [|y l IH]; intros H; cbn [remove_first]; [exact H|].
  inversion H as [|? ? Hy Hl]; subst.
  destruct (y =? x)%string; [exact Hl|].
  constructor; [|now apply IH]. intros Hin. apply Hy.
  now apply remove_first_In in Hin.
Qed.

Lemma fold_remove_NoDup (R l : list string) :
  NoDup l -> NoDup (fold_left (fun l r => remove_first r l) R l).
Proof.
  revert l; induction R as [|r R IH]; intros l H; cbn [fold_left]; [exact H|].
  apply IH. now apply remove_first_NoDup.
Qed.

Lemma addClasses_NoDup (A : list string) (s : string) :
  Forall word A -> NoDup (tokens s) -> NoDup (tokens (addClasses s A)).
Proof.
  revert s; induction A as [|a A IH]; intros s Hw Hs; cbn [addClasses]; [exact Hs|].
  inversion Hw as [|? ? Ha HwA]; subst. apply IH; trivial.
  destruct (Z.eqb_spec (indexOf s a) (-1)) as [E|_]; [|exact Hs].
  rewrite tokens_append by trivial.
  apply NoDup_app; trivial.
  - constructor; [intros [] | constructor].
  - intros x Hx [<-|[]]. apply indexOf_absent in E. apply E.
    now apply tokens_occurs.
Qed.

(** X10: when no breakpoint has white space in it and the class names of
    the breakpoints occur in the class attribute only as whole tokens,
    [updateClasses] brings in no token twice: a class attribute without a
    repeated token has none afterwards. *)
Theorem no_class_twice (st : State) :
  standAlone (breakPoints st) (className st) = true ->
  NoDup (tokens (className st)) ->
  NoDup (tokens (className (updateClasses st))).
Proof.
  intros Hsa Hnd. cbn [updateClasses className].
  rewrite tokens_replace_ws_runs. unfold afterAddition.
  pose proof Hsa as Hsa'. apply standAlone_inv in Hsa' as (Hws & _).
  apply addClasses_NoDup.
  - apply (words_incl (allClassNames (breakPoints st))).
    + apply classesToAdd_names.
    + now apply names_words.
  - rewrite afterRemoval_tokens by trivial. now apply fold_remove_NoDup.
Qed.

Lemma no_class_twice_witness :
  standAlone ["768"; "1024"] "no-js gt768 lt1024 wide" = true
  /\ NoDup (tokens "no-js gt768 lt1024 wide")
  /\ NoDup (tokens (className (updateClasses
                                 (mkState ["768"; "1024"] 500 "no-js gt768 lt1024 wide")))).
Proof.
  assert (Hnd : NoDup (tokens "no-js gt768 lt1024 wide")).
  { vm_compute. repeat constructor; simpl; intuition discriminate. }
  split; [vm_compute; reflexivity|]. split; [exact Hnd|].
  exact (no_class_twice (mkState ["768"; "1024"] 500 "no-js gt768 lt1024 wide")
                        eq_refl Hnd).
Defined.

(** ** Tidy class attributes, again and again *)

Lemma updateClasses_has_iff (st : State) (bp p : string) :
  tidy (breakPoints st) (className st) = true ->
  In bp (breakPoints st) -> In p prefixes ->
  (In (p ++ bp) (tokens (className (updateClasses st)))
   <-> p = activePrefix (clientWidth st) bp).
Proof.
  intros Htidy Hbp Hp. rewrite (updateClasses_tokens st Htidy).
  apply tidy_inv in Htidy as (_ & _ & Hcount). split.
  - intros Hin. destruct (string_dec p (activePrefix (clientWidth st) bp)) as [|Hne];
      [trivial | exfalso].
    apply fold_add_In in Hin as [Hin|Hin].
    + revert Hin. apply fold_remove_gone.
      * apply classesToRemove_In. now exists bp, p.
      * apply Hcount. apply allClassNames_In. now exists bp, p.
    + apply classesToAdd_In in Hin as (bp' & Hbp' & E).
      destruct (name_inj _ _ _ _ Hp (activePrefix_In _ _) E) as [E1 E2].
      subst bp'. contradiction.
  - intros ->. apply fold_add_has. apply classesToAdd_In. now exists bp.
Qed.

Lemma updateClasses_tidy (st : State) :
  tidy (breakPoints st) (className st) = true ->
  tidy (breakPoints st) (className (updateClasses st)) = true.
Proof.
  intros Htidy. pose proof (updateClasses_tokens st Htidy) as Htok.
  apply tidy_inv in Htidy as (Hsa & Hnames & Hcount).
  pose proof Hsa as Hsa'. apply standAlone_inv in Hsa' as (Hws & Hal).
  apply tidy_inv. split; [|split; [exact Hnames|]].
  - apply standAlone_inv. split; trivial.
    intros tok t Htk Ht. rewrite Htok in Htk.
    apply fold_add_In in Htk as [Htk|Htk].
    + apply fold_remove_In in Htk. now apply Hal.
    + apply classesToAdd_names in Htk. now apply Hnames.
  - intros t Ht. rewrite Htok. apply fold_add_count.
    etransitivity; [apply fold_remove_count_le | now apply Hcount].
Qed.

Lemma fold_add_filter (f : string -> bool) (A l : list string) :
  (forall a, In a A -> f a = false) ->
  filter f (fold_left (fun l a => add_absent a l) A l) = filter f l.
Proof.
  revert l; induction A as [|a A IH]; intros l H; cbn [fold_left]; [reflexivity|].
  rewrite IH by (intros; apply H; now right).
  unfold add_absent. destruct (in_dec string_dec a l); [reflexivity|].
  rewrite filter_app. cbn [filter]. rewrite (H a) by now left.
  apply app_nil_r.
Qed.

Lemma updateClasses_unrelated (st : State) :
  tidy (breakPoints st) (className st) = true ->
  filter (unrelated (breakPoints st)) (tokens (className (updateClasses st)))
  = filter (unrelated (breakPoints st)) (tokens (className st)).
Proof.
  intros Htidy. rewrite (updateClasses_tokens st Htidy).
  rewrite fold_add_filter, fold_remove_filter; trivial.
  - intros r Hr. unfold unrelated. apply negb_false_iff, isClassName_In.
    now apply classesToRemove_names.
  - intros a Ha. unfold unrelated. apply negb_false_iff, isClassName_In.
    now apply classesToAdd_names.
Qed.

Lemma removeClasses_absent (R : list string) (s : string) :
  (forall r, In r R -> ~ occurs r s) -> removeClasses s R = s.
Proof.
  induction R as [|r R IH]; intros H; cbn [removeClasses]; [reflexivity|].
  rewrite replace_absent by (apply H; now left).
  apply IH. intros x Hx. apply H. now right.
Qed.

Lemma addClasses_present (A : list string) (s : string) :
  (forall a, In a A -> occurs a s) -> addClasses s A = s.
Proof.
  induction A as [|a A IH]; intros H; cbn [addClasses]; [reflexivity|].
  destruct (Z.eqb_spec (indexOf s a) (-1)) as [E|_].
  - apply indexOf_absent in E. exfalso. apply E, H. now left.
  - apply IH. intros x Hx. apply H. now right.
Qed.

(** X11: on a tidy class attribute a second run of [updateClasses] at the
    same width changes nothing: a [resize] event that leaves the width as it
    is leaves the page as it is. *)
Theorem updateClasses_idempotent (st : State) :
  tidy (breakPoints st) (className st) = true ->
  updateClasses (updateClasses st) = updateClasses st
  /\ resize (clientWidth st) (updateClasses st) = updateClasses st.
Proof.
  intros Htidy.
  pose proof (updateClasses_tidy st Htidy) as Htidy'.
  pose proof Htidy' as Hinv. apply tidy_inv in Hinv as (Hsa & _ & _).
  apply standAlone_inv in Hsa as (Hws & Hal).
  pose proof (names_words _ Hws) as Hwords. rewrite Forall_forall in Hwords.
  assert (Hrem : afterRemoval (updateClasses st) = className (updateClasses st)).
  { apply removeClasses_absent. intros r Hr Ho.
    change (classesToRemove (updateClasses st)) with (classesToRemove st) in Hr.
    pose proof (classesToRemove_names st r Hr) as Hname.
    destruct (Hwords r Hname) as [Hw Hne].
    destruct (occurs_token r _ Hw Hne Ho) as (w & Hin & Hoc).
    assert (E : w = r) by now apply Hal. subst w.
    apply classesToRemove_In in Hr as (bp & p & Hbp & Hp & Hnp & ->).
    now apply (updateClasses_has_iff st bp p Htidy Hbp Hp) in Hin. }
  assert (Hadd : afterAddition (updateClasses st) = className (updateClasses st)).
  { unfold afterAddition. rewrite Hrem. apply addClasses_present. intros a Ha.
    change (classesToAdd (updateClasses st)) with (classesToAdd st) in Ha.
    apply classesToAdd_In in Ha as (bp & Hbp & ->).
    apply tokens_occurs.
    apply (updateClasses_has_iff st bp _ Htidy Hbp (activePrefix_In _ _)).
    reflexivity. }
  assert (E : updateClasses (updateClasses st) = updateClasses st).
  { unfold updateClasses at 1. rewrite Hadd.
    rewrite singleSpaced_fixed by apply replace_ws_runs_singleSpaced.
    reflexivity. }
  split; [exact E|]. exact E.
Qed.

Lemma updateClasses_idempotent_witness :
  tidy ["768"; "1024"] "no-js  lt768 lt1024" = true
  /\ updateClasses (updateClasses (mkState ["768"; "1024"] 800 "no-js  lt768 lt1024"))
     = updateClasses (mkState ["768"; "1024"] 800 "no-js  lt768 lt1024")
  /\ className (updateClasses (mkState ["768"; "1024"] 800 "no-js  lt768 lt1024"))
     = "no-js lt1024 gt768".
Proof.
  split; [vm_compute; reflexivity|]. split; [|vm_compute; reflexivity].
  pose proof (updateClasses_idempotent (mkState ["768"; "1024"] 800 "no-js  lt768 lt1024")
                                       eq_refl) as (H & _).
  exact H.
Defined.

Lemma call_keepsPage (c : Call) (st : State) :
  keepsPage c = true ->
  tidy (breakPoints st) (className st) = true ->
  breakPoints (call c st) = breakPoints st
  /\ tidy (breakPoints st) (className (call c st)) = true
  /\ filter (unrelated (breakPoints st)) (tokens (className (call c st)))
     = filter (unrelated (breakPoints st)) (tokens (className st)).
Proof.
  intros Hc Htidy. destruct c; try discriminate; cbn [call].
  - now repeat split.
  - repeat split.
    + now apply updateClasses_tidy.
    + now apply updateClasses_unrelated.
  - unfold resize. repeat split.
    + now apply (updateClasses_tidy (mkState (breakPoints st) width (className st))).
    + now apply (updateClasses_unrelated (mkState (breakPoints st) width (className st))).
Qed.

Lemma run_keepsPage (calls : list Call) (st : State) :
  forallb keepsPage calls = true ->
  tidy (breakPoints st) (className st) = true ->
  breakPoints (run calls st) = breakPoints st
  /\ tidy (breakPoints st) (className (run calls st)) = true
  /\ filter (unrelated (breakPoints st)) (tokens (className (run calls st)))
     = filter (unrelated (breakPoints st)) (tokens (className st)).
Proof.
  revert st; induction calls as [|c calls IH]; intros st Hc Htidy.
  - now repeat split.
  - cbn [forallb] in Hc. apply andb_true_iff in Hc as [Hc Hcs].
    destruct (call_keepsPage c st Hc Htidy) as (Eb & Ht & Eu).
    change (run (c :: calls) st) with (run calls (call c st)).
    destruct (IH (call c st) Hcs) as (Eb' & Ht' & Eu').
    { now rewrite Eb. }
    rewrite Eb in *. repeat split; trivial. now rewrite Eu'.
Qed.

(** X12: the classes do not remember.  From a tidy class attribute, after
    any sequence of [resize] events and calls of [updateClasses] and
    [hasBreakPoint], a [resize] event leaves for every breakpoint exactly the
    class of the width it reports, leaves the tokens of the host page as
    they were at the start, and the array of breakpoints too. *)
Theorem resize_forgets_history
        (st : State) (calls : list Call) (width : Z) (bp p : string) :
  tidy (breakPoints st) (className st) = true ->
  forallb keepsPage calls = true ->
  In bp (breakPoints st) ->
  In p prefixes ->
  let st' := resize width (run calls st) in
  (In (p ++ bp) (tokens (className st')) <-> p = activePrefix width bp)
  /\ filter (unrelated (breakPoints st)) (tokens (className st'))
     = filter (unrelated (breakPoints st)) (tokens (className st))
  /\ breakPoints st' = breakPoints st
  /\ tidy (breakPoints st') (className st') = true.
Proof.
  intros Htidy Hc Hbp Hp st'. subst st'.
  destruct (run_keepsPage calls st Hc Htidy) as (Eb & Ht & Eu).
  set (s1 := run calls st) in *.
  set (s2 := mkState (breakPoints s1) width (className s1)).
  assert (Ht2 : tidy (breakPoints s2) (className s2) = true).
  { subst s2. cbn [breakPoints className]. now rewrite Eb. }
  assert (Hbp2 : In bp (breakPoints s2)).
  { subst s2. cbn [breakPoints]. now rewrite Eb. }
  change (resize width s1) with (updateClasses s2).
  split; [|split; [|split]].
  - apply (updateClasses_has_iff s2 bp p Ht2 Hbp2 Hp).
  - rewrite <- Eu. rewrite <- Eb.
    apply (updateClasses_unrelated s2 Ht2).
  - exact Eb.
  - apply (updateClasses_tidy s2 Ht2).
Qed.

Lemma resize_forgets_history_witness :
  tidy ["768"; "1024"] "no-js" = true
  /\ forallb keepsPage [Resize 500; CallUpdateClasses; Resize 2000; Resize 1024] = true
  /\ In "1024" ["768"; "1024"]
  /\ In "gt" prefixes
  /\ className (resize 900 (run [Resize 500; CallUpdateClasses; Resize 2000; Resize 1024]
                                (mkState ["768"; "1024"] 0 "no-js")))
     = "no-js gt768 lt1024"
  /\ (In ("gt" ++ "1024")
         (tokens (className
                    (resize 900 (run [Resize 500; CallUpdateClasses; Resize 2000; Resize 1024]
                                     (mkState ["768"; "1024"] 0 "no-js")))))
      <-> "gt" = activePrefix 900 "1024").
Proof.
  split; [vm_compute; reflexivity|]. split; [reflexivity|].
  split; [simpl; tauto|]. split; [simpl; tauto|].
  split; [vm_compute; reflexivity|].
  pose proof (resize_forgets_history
                (mkState ["768"; "1024"] 0 "no-js")
                [Resize 500; CallUpdateClasses; Resize 2000; Resize 1024]
                900 "1024" "gt" eq_refl eq_refl
                (or_intror (or_introl eq_refl))
                (or_intror (or_introl eq_refl))) as H.
  cbv zeta in H. destruct H as (H & _). exact H.
Defined.

(** ** The first classes on a page *)

Lemma fold_remove_absent (R l : list string) :
  (forall r, In r R -> ~ In r l) ->
  fold_left (fun l r => remove_first r l) R l = l.
Proof.
  induction R as [|r R IH]; intros H; cbn [fold_left]; [reflexivity|].
  rewrite remove_first_absent by (apply H; now left).
  apply IH. intros x Hx. apply H. now right.
Qed.

Lemma fold_add_fresh (A l : list string) :
  NoDup A -> (forall a, In a A -> ~ In a l) ->
  fold_left (fun l a => add_absent a l) A l = (l ++ A)%list.
Proof.
  revert l; induction A as [|a A IH]; intros l Hnd H; cbn [fold_left].
  - now rewrite app_nil_r.
  - inversion Hnd as [|? ? Ha HA]; subst.
    unfold add_absent at 2. destruct (in_dec string_dec a l) as [Hin|_].
    + exfalso. now apply (H a (or_introl eq_refl)).
    + rewrite IH; trivial.
      * now rewrite <- app_assoc.
      * intros x Hx Hin. apply in_app_or in Hin as [Hin|[<-|[]]].
        -- apply (H x); [now right | exact Hin].
        -- contradiction.
Qed.

Lemma classesToAdd_NoDup (st : State) :
  NoDup (breakPoints st) -> NoDup (classesToAdd st).
Proof.
  rewrite classesToAdd_map. unfold windowWidth.
  induction (breakPoints st) as [|b l IH]; intros H; cbn [map]; [constructor|].
  inversion H as [|? ? Hb Hl]; subst. constructor; [|now apply IH].
  intros Hin. apply in_map_iff in Hin as (b' & E & Hb').
  rewrite !classesFor_fst in E.
  destruct (name_inj _ _ _ _ (activePrefix_In _ _) (activePrefix_In _ _) E) as [_ ->].
  contradiction.
Qed.

Lemma singleSpaced_word_app (a r : string) :
  noWs a = true -> singleSpaced (a ++ r) = singleSpaced r.
Proof.
  induction a as [|c a IH]; intros H; [reflexivity|].
  cbn [noWs] in H. apply andb_true_iff in H as [Hc Ha].
  apply negb_true_iff in Hc. cbn [append singleSpaced]. rewrite Hc.
  now apply IH.
Qed.

Lemma singleSpaced_spaced (A : list string) :
  Forall word A -> singleSpaced (spaced A) = true.
Proof.
  induction A as [|a A IH]; intros H; [reflexivity|].
  inversion H as [|? ? [Ha Hne] HA]; subst.
  cbn [spaced append singleSpaced]. change (is_ws " ") with true. cbv iota.
  rewrite singleSpaced_word_app, (IH HA) by trivial.
  destruct a as [|c a]; [contradiction|].
  cbn [noWs] in Ha. apply andb_true_iff in Ha as [Hc _].
  cbn [append]. now rewrite Hc.
Qed.

Lemma addClasses_fresh (A : list string) (s : string) :
  Forall word A -> NoDup A ->
  alone A (tokens s ++ A) ->
  (forall a, In a A -> ~ In a (tokens s)) ->
  addClasses s A = s ++ spaced A.
Proof.
  revert s; induction A as [|a A IH]; intros s Hw Hnd Hal Hf; cbn [addClasses spaced].
  - now rewrite app_nil_r_s.
  - inversion Hw as [|? ? Ha HwA]; subst. inversion Hnd as [|? ? Hna HndA]; subst.
    assert (E : indexOf s a = -1).
    { apply indexOf_tokens; trivial.
      - intros tok Htok. apply Hal; [apply in_or_app; now left | now left].
      - apply Hf. now left. }
    rewrite E. cbn [Z.eqb Pos.eqb].
    rewrite IH; trivial.
    + now rewrite !app_assoc_s.
    + rewrite tokens_append by trivial. intros tok t Htok Ht.
      apply Hal; [|now right]. rewrite <- app_assoc in Htok. exact Htok.
    + rewrite tokens_append by trivial. intros x Hx Hin.
      apply in_app_or in Hin as [Hin|[<-|[]]].
      * apply (Hf x); [now right | exact Hin].
      * contradiction.
Qed.

(** X13: on a tidy class attribute that has none of the class names of the
    breakpoints yet, and with no breakpoint registered twice,
    [updateClasses] appends one class for each breakpoint, in the order of
    the array, after the tokens of the host page.  On a page without
    classes the class attribute is then exactly these classes, each after
    one space, as in the examples of the documentation. *)
Theorem first_classes (st : State) :
  tidy (breakPoints st) (className st) = true ->
  NoDup (breakPoints st) ->
  (forall t, In t (tokens (className st)) -> unrelated (breakPoints st) t = true) ->
  tokens (className (updateClasses st)) = (tokens (className st) ++ classesToAdd st)%list
  /\ (className st = "" -> className (updateClasses st) = spaced (classesToAdd st)).
Proof.
  intros Htidy Hnd Hun.
  pose proof (updateClasses_tokens st Htidy) as Htok.
  apply tidy_inv in Htidy as (Hsa & Hnames & _).
  apply standAlone_inv in Hsa as (Hws & _).
  pose proof (names_words _ Hws) as Hwords.
  assert (Hfresh : forall t, In t (allClassNames (breakPoints st)) ->
                             ~ In t (tokens (className st))).
  { intros t Ht Hin. apply Hun in Hin. unfold unrelated in Hin.
    apply negb_true_iff in Hin. apply isClassName_In in Ht. congruence. }
  split.
  - rewrite Htok, fold_remove_absent, fold_add_fresh; trivial.
    + now apply classesToAdd_NoDup.
    + intros a Ha. apply Hfresh. now apply classesToAdd_names.
    + intros r Hr. apply Hfresh. now apply classesToRemove_names.
  - intros E. cbn [updateClasses className]. unfold afterAddition, afterRemoval.
    rewrite E. rewrite removeClasses_absent.
    + rewrite addClasses_fresh.
      * cbn [append]. apply singleSpaced_fixed, singleSpaced_spaced.
        apply (words_incl (allClassNames (breakPoints st))); trivial.
        apply classesToAdd_names.
      * apply (words_incl (allClassNames (breakPoints st))); trivial.
        apply classesToAdd_names.
      * now apply classesToAdd_NoDup.
      * intros tok t Htk Ht. cbn [tokens tokens_from emit app] in Htk.
        apply Hnames; trivial; now apply classesToAdd_names.
      * intros a _ [].
    + intros r Hr (pre & post & Hs).
      pose proof (classesToRemove_names st r Hr) as Hname.
      rewrite Forall_forall in Hwords. destruct (Hwords r Hname) as [_ Hne].
      destruct pre; [|discriminate]. destruct r; [contradiction | discriminate].
Qed.

Lemma first_classes_witness :
  tidy ["768"; "1024"; "1100"] "" = true
  /\ NoDup ["768"; "1024"; "1100"]
  /\ className (updateClasses (mkState ["768"; "1024"; "1100"] 1080 ""))
     = spaced (classesToAdd (mkState ["768"; "1024"; "1100"] 1080 ""))
  /\ spaced (classesToAdd (mkState ["768"; "1024"; "1100"] 1080 ""))
     = " gt768 gt1024 lt1100".
Proof.
  assert (Hnd : NoDup ["768"; "1024"; "1100"]).
  { repeat constructor; simpl; intuition discriminate. }
  split; [vm_compute; reflexivity|]. split; [exact Hnd|].
  split; [|vm_compute; reflexivity].
  pose proof (first_classes (mkState ["768"; "1024"; "1100"] 1080 "") eq_refl Hnd) as H.
  destruct H as (_ & H).
  - intros t [].
  - apply H. reflexivity.
Defined.

(** ** What the third loop and a registration leave on the page *)

Lemma addClasses_appends (A : list string) (s : string) :
  exists A' : list string,
    addClasses s A = s ++ spaced A'
    /\ forall a, In a A' -> In a A /\ ~ occurs a s.
Proof.
  revert s; induction A as [|a A IH]; intros s; cbn [addClasses].
  - exists []. split; [now rewrite app_nil_r_s | intros a []].
  - destruct (Z.eqb_spec (indexOf s a) (-1)) as [E|_].
    + destruct (IH (s ++ " " ++ a)) as (A' & HA & Hin).
      exists (a :: A'). split.
      * rewrite HA. cbn [spaced]. now rewrite !app_assoc_s.
      * intros x [<-|Hx].
        -- split; [now left | now apply indexOf_absent].
        -- destruct (Hin x Hx) as [H1 H2]. split; [now right|].
           intros Ho. apply H2. now apply occurs_app_r.
    + destruct (IH s) as (A' & HA & Hin). exists A'. split; trivial.
      intros x Hx. destruct (Hin x Hx). split; [now right | trivial].
Qed.

(** X14: the third loop only appends.  The class string after it is the
    class string after the second loop followed by some of the classes to
    add, each after one space: those that did not occur in it. *)
Theorem third_loop_appends (st : State) :
  exists added : list string,
    afterAddition st = afterRemoval st ++ spaced added
    /\ forall a, In a added ->
         In a (classesToAdd st) /\ ~ occurs a (afterRemoval st).
Proof. apply addClasses_appends. Qed.


